(** * The archive extractor of [aws_lambda_builders.workflows.dotnet_clipackage.utils]

    A shallow embedding of [OSUtils.unzip] and of the helpers it calls
    ([_is_symlink], [_extract], [_override_permissions], [_set_permissions]),
    run against an executable model of the operating-system and [zipfile]
    primitives they use, followed by the properties of the extractor. *)

From Stdlib Require Import ZArith String Ascii List Lia.
From stdpp Require Import base gmap strings list fin_maps.

Open Scope Z_scope.

(** ** Path strings ([posixpath])

    Python paths are [str]; the file system below is keyed by normalised
    absolute paths, kept as the list of their components ([[]] is the root
    directory).  The working directory of the process is taken to be the
    root, so a relative path string denotes the same component list as the
    absolute one. *)

Fixpoint split_on (sep : ascii) (s acc : string) : list string :=
  match s with
  | EmptyString => [acc]
  | String c r =>
      if Ascii.eqb c sep then acc :: split_on sep r EmptyString
      else split_on sep r (acc +:+ String c EmptyString)
  end.

(** [s.split("/")] *)
Definition str_split (s : string) : list string := split_on "/"%char s EmptyString.

Definition starts_with_sep (s : string) : bool :=
  match s with
  | String c _ => Ascii.eqb c "/"%char
  | EmptyString => false
  end.

Fixpoint ends_with_sep (s : string) : bool :=
  match s with
  | EmptyString => false
  | String c EmptyString => Ascii.eqb c "/"%char
  | String _ r => ends_with_sep r
  end.

(** [posixpath.join(a, b)] for two arguments. *)
Definition os_path_join (a b : string) : string :=
  if starts_with_sep b then b
  else if String.eqb a EmptyString || ends_with_sep a then a +:+ b
  else a +:+ "/" +:+ b.

(** One component of [posixpath.normpath]: empty and ["."] components are
    dropped, [".."] pops the previous component (and is dropped at the root). *)
Definition norm_step (stack : list string) (c : string) : list string :=
  if String.eqb c EmptyString || String.eqb c "." then stack
  else if String.eqb c ".." then removelast stack
  else stack ++ [c].

(** [posixpath.normpath(s)], as a component list. *)
Definition os_path_normpath (s : string) : list string :=
  foldl norm_step [] (str_split s).

(** [posixpath.dirname] of a normalised path. *)
Definition os_path_dirname (p : list string) : list string := removelast p.

(** ** Bytes and [bytes.decode("utf8")]

    A Rocq [string] is a sequence of 8-bit characters, so it stands for
    Python [bytes]; a Python [str] is kept as its UTF-8 encoding.  Decoding
    is then the identity on well-formed input and raises
    [UnicodeDecodeError] otherwise. *)

Definition byte_in (lo hi : N) (c : ascii) : bool :=
  (lo <=? N_of_ascii c)%N && (N_of_ascii c <=? hi)%N.

Definition is_cont (c : ascii) : bool := byte_in 128 191 c.

(** Well-formed UTF-8 byte sequences (Unicode Standard, table 3-7). *)
Fixpoint utf8_valid (fuel : nat) (s : string) : bool :=
  match fuel with
  | O => match s with EmptyString => true | _ => false end
  | S fuel' =>
      match s with
      | EmptyString => true
      | String c0 r0 =>
          if byte_in 0 127 c0 then utf8_valid fuel' r0
          else match r0 with
          | EmptyString => false
          | String c1 r1 =>
              if byte_in 194 223 c0 then is_cont c1 && utf8_valid fuel' r1
              else match r1 with
              | EmptyString => false
              | String c2 r2 =>
                  if byte_in 224 239 c0 then
                    (if byte_in 224 224 c0 then byte_in 160 191 c1
                     else if byte_in 237 237 c0 then byte_in 128 159 c1
                     else is_cont c1)
                    && is_cont c2 && utf8_valid fuel' r2
                  else match r2 with
                  | EmptyString => false
                  | String c3 r3 =>
                      byte_in 240 244 c0
                      && (if byte_in 240 240 c0 then byte_in 144 191 c1
                          else if byte_in 244 244 c0 then byte_in 128 143 c1
                          else is_cont c1)
                      && is_cont c2 && is_cont c3 && utf8_valid fuel' r3
                  end
              end
          end
      end
  end.

Definition decode_utf8 (b : string) : option string :=
  if utf8_valid (String.length b) b then Some b else None.

(** ** Archives ([zipfile]) and the file system *)

(** [zipfile.ZipInfo], with the member's stored data. *)
Record ZipInfo := mkZipInfo {
  filename : string;
  external_attr : Z;
  payload : string
}.

(** What a regular file holds: arbitrary bytes, or a ZIP archive with its
    members in stored order. *)
Inductive content :=
  | Bytes (b : string)
  | Archive (members : list ZipInfo).

Inductive node :=
  | File (c : content) (mode : Z)
  | Dir (mode : Z)
  | Symlink (target : string).

Definition is_link (n : node) : bool :=
  match n with Symlink _ => true | _ => false end.

Definition set_mode (n : node) (m : Z) : node :=
  match n with
  | File c _ => File c m
  | Dir _ => Dir m
  | Symlink t => Symlink t
  end.

Inductive exn :=
  | BadZipFile
  | FileNotFoundError
  | FileExistsError
  | IsADirectoryError
  | NotADirectoryError
  | TooManyLinks
  | UnicodeDecodeError
  | KeyError
  | UnboundLocalError.

Global Instance exn_eq_dec : EqDecision exn.
Proof. solve_decision. Defined.

(** The calls the extractor makes that act on the world, in program order.
    [EvChmod] also records whether the path named a symbolic link at the
    time of the call. *)
Inductive event :=
  | EvExtract (member : string) (target : list string)
  | EvMakedirs (p : list string)
  | EvRemove (p : list string)
  | EvSymlink (src : string) (p : list string)
  | EvChmod (p : list string) (mode : Z) (on_link : bool)
  | EvDebug (member : string).

Record world := mkWorld {
  fs : gmap (list string) node;
  umask : Z;
  calls : list event
}.

Definition set_fs (m : gmap (list string) node) (w : world) : world :=
  mkWorld m (umask w) (calls w).

Definition add_call (e : event) (w : world) : world :=
  mkWorld (fs w) (umask w) (calls w ++ [e]).

(** ** Exceptions and state: the monad the program runs in

    A Python call either returns a value or raises; in both cases the
    changes it made to the world so far stay. *)

Inductive result (A : Type) :=
  | Ok (a : A)
  | Raise (e : exn).
Arguments Ok {A} a.
Arguments Raise {A} e.

Definition M (A : Type) : Type := world → result A * world.

Global Instance M_ret : MRet M := λ A a w, (Ok a, w).

Global Instance M_bind : MBind M := λ A B k c w,
  match c w with
  | (Ok a, w') => k a w'
  | (Raise e, w') => (Raise e, w')
  end.

Definition raise {A} (e : exn) : M A := λ w, (Raise e, w).

Definition gets {A} (f : gmap (list string) node → A) : M A :=
  λ w, (Ok (f (fs w)), w).

Definition emit (e : event) : M unit := λ w, (Ok tt, add_call e w).

(** Lift a file-system transformer that may fail (leaving the file system
    as it was). *)
Definition lift (f : Z → gmap (list string) node → result (gmap (list string) node)) : M unit :=
  λ w, match f (umask w) (fs w) with
       | Ok m' => (Ok tt, set_fs m' w)
       | Raise e => (Raise e, w)
       end.

Definition when (b : bool) (c : M unit) : M unit := if b then c else mret tt.

(** [try: c except FileExistsError: pass] *)
Definition except_FileExistsError_pass (c : M unit) : M unit := λ w,
  match c w with
  | (Raise FileExistsError, w') => (Ok tt, w')
  | r => r
  end.

(** ** The file system

    A flat map from normalised paths to nodes.  Symbolic links are resolved
    for the last component only (with the kernel's limit of forty links); a
    new object needs its parent to be a directory node.  Resolution through
    linked parent directories, access rights and resource limits are outside
    the model. *)

Definition default_mode (um base : Z) : Z := Z.land base (Z.lnot um).

Definition link_dest (p : list string) (target : string) : list string :=
  if starts_with_sep target then os_path_normpath target
  else foldl norm_step (os_path_dirname p) (str_split target).

Fixpoint follow (n : nat) (m : gmap (list string) node) (p : list string)
  : option (list string) :=
  match m !! p with
  | Some (Symlink t) =>
      match n with
      | O => None
      | S n' => follow n' m (link_dest p t)
      end
  | _ => Some p
  end.

Definition MAXSYMLINKS : nat := 40.

(** [os.stat]: the node a path resolves to, following links. *)
Definition stat (m : gmap (list string) node) (p : list string) : option node :=
  match follow MAXSYMLINKS m p with
  | Some q => m !! q
  | None => None
  end.

Definition islink (m : gmap (list string) node) (p : list string) : bool :=
  match m !! p with Some (Symlink _) => true | _ => false end.

Definition lexists (m : gmap (list string) node) (p : list string) : bool :=
  match m !! p with Some _ => true | None => false end.

Definition exists_ (m : gmap (list string) node) (p : list string) : bool :=
  match stat m p with Some _ => true | None => false end.

Definition isdir (m : gmap (list string) node) (p : list string) : bool :=
  match stat m p with Some (Dir _) => true | _ => false end.

Definition parent_check (m : gmap (list string) node) (p : list string) : option exn :=
  match m !! os_path_dirname p with
  | Some (Dir _) => None
  | Some _ => Some NotADirectoryError
  | None => Some FileNotFoundError
  end.

Definition fs_create (n : node) (p : list string) (m : gmap (list string) node)
  : result (gmap (list string) node) :=
  match m !! p with
  | Some _ => Raise FileExistsError
  | None =>
      match parent_check m p with
      | Some e => Raise e
      | None => Ok (<[p := n]> m)
      end
  end.

Definition fs_mkdir (p : list string) (um : Z) (m : gmap (list string) node) :=
  fs_create (Dir (default_mode um 511)) p m.

Definition fs_symlink (src : string) (p : list string) (um : Z) (m : gmap (list string) node) :=
  fs_create (Symlink src) p m.

Definition fs_remove (p : list string) (um : Z) (m : gmap (list string) node)
  : result (gmap (list string) node) :=
  match m !! p with
  | None => Raise FileNotFoundError
  | Some (Dir _) => Raise IsADirectoryError
  | Some _ => Ok (delete p m)
  end.

(** [chmod(2)] follows links and keeps the twelve permission bits. *)
Definition fs_chmod (p : list string) (mode : Z) (um : Z) (m : gmap (list string) node)
  : result (gmap (list string) node) :=
  match follow MAXSYMLINKS m p with
  | None => Raise TooManyLinks
  | Some q =>
      match m !! q with
      | None => Raise FileNotFoundError
      | Some n => Ok (<[q := set_mode n (Z.land mode 4095)]> m)
      end
  end.

(** [open(p, "wb")] followed by writing [c]: an existing file is truncated
    and keeps its mode, a new one gets the default creation mode. *)
Definition fs_write (p : list string) (c : content) (um : Z) (m : gmap (list string) node)
  : result (gmap (list string) node) :=
  match follow MAXSYMLINKS m p with
  | None => Raise TooManyLinks
  | Some q =>
      match m !! q with
      | Some (File _ md) => Ok (<[q := File c md]> m)
      | Some (Dir _) => Raise IsADirectoryError
      | Some (Symlink _) => Raise TooManyLinks
      | None =>
          match parent_check m q with
          | Some e => Raise e
          | None => Ok (<[q := File c (default_mode um 438)]> m)
          end
      end
  end.

(** ** The [os] and [os.path] calls of the program *)

Definition os_path_islink (p : list string) : M bool := gets (λ m, islink m p).
Definition os_path_lexists (p : list string) : M bool := gets (λ m, lexists m p).
Definition os_path_exists (p : list string) : M bool := gets (λ m, exists_ m p).
Definition os_path_isdir (p : list string) : M bool := gets (λ m, isdir m p).

Definition os_mkdir (p : list string) : M unit := lift (fs_mkdir p).

(** [os.makedirs(name)]: recursion on the head of the path, written on the
    reversed component list. *)
Fixpoint makedirs_rev (rname : list string) : M unit :=
  match rname with
  | [] => os_mkdir []
  | _ :: rhead =>
      ex ← os_path_exists (rev rhead);
      when (negb ex) (except_FileExistsError_pass (makedirs_rev rhead));;
      os_mkdir (rev rname)
  end.

Definition os_makedirs (name : list string) : M unit :=
  emit (EvMakedirs name);; makedirs_rev (rev name).

Definition os_remove (p : list string) : M unit :=
  emit (EvRemove p);; lift (fs_remove p).

Definition os_symlink (src : string) (p : list string) : M unit :=
  emit (EvSymlink src p);; lift (fs_symlink src p).

Definition os_chmod (p : list string) (mode : Z) : M unit :=
  l ← os_path_islink p;
  emit (EvChmod p mode l);; lift (fs_chmod p mode).

Definition LOG_debug (member : string) : M unit := emit (EvDebug member).

(** The path a path string names when handed to a system call. *)
Definition fspath (s : string) : list string := os_path_normpath s.

(** ** The [zipfile] calls of the program *)

(** [zipfile.ZipFile(path, "r")]: the member list is read when the archive
    is opened. *)
Definition ZipFile_open (p : list string) : M (list ZipInfo) := λ w,
  match stat (fs w) p with
  | Some (File (Archive ms) _) => (Ok ms, w)
  | Some (File (Bytes _) _) => (Raise BadZipFile, w)
  | Some (Dir _) => (Raise IsADirectoryError, w)
  | Some (Symlink _) => (Raise TooManyLinks, w)
  | None => (Raise FileNotFoundError, w)
  end.

(** [ZipFile.getinfo(name)]: the name table keeps the last member stored
    under a name. *)
Definition ZipFile_getinfo (zip_ref : list ZipInfo) (name : string) : option ZipInfo :=
  find (λ zi, String.eqb (filename zi) name) (rev zip_ref).

(** [ZipFile.read(name)] *)
Definition ZipFile_read (zip_ref : list ZipInfo) (name : string) : M string :=
  match ZipFile_getinfo zip_ref name with
  | Some zi => mret (payload zi)
  | None => raise KeyError
  end.

(** [ZipInfo.is_dir()] *)
Definition ZipInfo_is_dir (zi : ZipInfo) : bool := ends_with_sep (filename zi).

(** The member name with its empty, ["."] and [".."] components removed. *)
Definition arcname (zi : ZipInfo) : string :=
  String.concat "/"
    (filter (λ c, c ≠ EmptyString ∧ c ≠ "."%string ∧ c ≠ ".."%string) (str_split (filename zi))).

Definition ZipFile_targetpath (zi : ZipInfo) (path : string) : list string :=
  os_path_normpath (os_path_join path (arcname zi)).

(** [ZipFile.extract(member, path)] for a [ZipInfo] member. *)
Definition ZipFile_extract (zip_ref : list ZipInfo) (member : ZipInfo) (path : string)
  : M (list string) :=
  let targetpath := ZipFile_targetpath member path in
  let upperdirs := os_path_dirname targetpath in
  emit (EvExtract (filename member) targetpath);;
  ex ← os_path_exists upperdirs;
  when (negb ex) (makedirs_rev (rev upperdirs));;
  (if ZipInfo_is_dir member then
     d ← os_path_isdir targetpath;
     when (negb d) (os_mkdir targetpath)
   else
     lift (fs_write targetpath (Bytes (payload member))));;
  mret targetpath.

Definition bytes_decode (b : string) : M string :=
  match decode_utf8 b with
  | Some s => mret s
  | None => raise UnicodeDecodeError
  end.

(** ** The program: [OSUtils] *)

Definition _is_symlink (file_info : ZipInfo) : bool :=
  let symlink := 10 in
  Z.shiftr (external_attr file_info) 28 =? symlink.

Definition _extract (file_info : ZipInfo) (output_dir : string) (zip_ref : list ZipInfo)
  : M (list string) :=
  if negb (_is_symlink file_info) then
    ZipFile_extract zip_ref file_info output_dir
  else
    data ← ZipFile_read zip_ref (filename file_info);
    source ← bytes_decode data;
    let link_name := os_path_normpath (os_path_join output_dir (filename file_info)) in
    let leading_dirs := os_path_dirname link_name in
    ex ← os_path_exists leading_dirs;
    when (negb ex) (os_makedirs leading_dirs);;
    lex ← os_path_lexists link_name;
    when lex (os_remove link_name);;
    os_symlink source link_name;;
    mret link_name.

(** [if permission:] on an optional integer. *)
Definition truthy (permission : option Z) : bool :=
  match permission with
  | Some m => negb (m =? 0)
  | None => false
  end.

Definition _override_permissions (path : list string) (permission : option Z) : M unit :=
  match permission with
  | Some m => when (truthy permission) (os_chmod path m)
  | None => mret tt
  end.

Definition _set_permissions (zip_file_info : ZipInfo) (extracted_path : list string) : M unit :=
  let permission := Z.shiftr (external_attr zip_file_info) 16 in
  if permission =? 0 then
    LOG_debug (filename zip_file_info)
  else
    os_chmod extracted_path permission.

(** The body of the [for] loop of [unzip], for one member; it yields the
    value assigned to the loop's variable [extracted_path]. *)
Definition unzip_entry (zip_ref : list ZipInfo) (output_dir : string)
    (permission : option Z) (file_info : ZipInfo) : M (list string) :=
  extracted_path ← _extract file_info output_dir zip_ref;
  l ← os_path_islink extracted_path;
  when (negb l)
    (_set_permissions file_info extracted_path;;
     _override_permissions extracted_path permission);;
  mret extracted_path.

(** The [for] loop of [unzip] over the remaining members; [extracted_path]
    is the loop's variable ([None] while unassigned). *)
Fixpoint unzip_loop (zip_ref infolist : list ZipInfo) (output_dir : string)
    (permission : option Z) (extracted_path : option (list string))
  : M (option (list string)) :=
  match infolist with
  | [] => mret extracted_path
  | file_info :: rest =>
      p ← unzip_entry zip_ref output_dir permission file_info;
      unzip_loop zip_ref rest output_dir permission (Some p)
  end.

(** Reading the loop variable after the loop. *)
Definition read_local (extracted_path : option (list string)) : M (list string) :=
  match extracted_path with
  | Some p => mret p
  | None => raise UnboundLocalError
  end.

Definition unzip (zip_file_path output_dir : string) (permission : option Z) : M unit :=
  zip_ref ← ZipFile_open (fspath zip_file_path);
  last ← unzip_loop zip_ref zip_ref output_dir permission None;
  extracted_path ← read_local last;
  l ← os_path_islink extracted_path;
  when (negb l) (_override_permissions (fspath output_dir) permission);;
  os_remove (fspath zip_file_path).

(** ** Vocabulary of the statements *)

Definition node_mode (n : node) : Z :=
  match n with
  | File _ md => md
  | Dir md => md
  | Symlink _ => 0
  end.

(** [n'] is [n] up to the data it holds. *)
Definition same_meta (n n' : node) : Prop :=
  is_link n = is_link n' ∧ node_mode n = node_mode n'.

(** Every object of [m] outside [D] is still there in [m'], related to what
    it was by [Rn]. *)
Definition tracks (Rn : relation node) (D : list string → Prop)
    (m m' : gmap (list string) node) : Prop :=
  ∀ q n, ¬ D q → m !! q = Some n → ∃ n', m' !! q = Some n' ∧ Rn n n'.

(** ... with the same kind and mode. *)
Definition keeps_but := tracks same_meta.

(** ... in whatever state. *)
Definition survives_but := tracks (λ _ _, True).

(** A computation whose effect on the world always stays within [R],
    whether it returns or raises. *)
Definition respects {A} (R : relation world) (c : M A) : Prop :=
  ∀ w r w', c w = (r, w') → R w w'.

Definition wtracks (Rn : relation node) (D : list string → Prop) : relation world :=
  λ w w', tracks Rn D (fs w) (fs w').

(** The path [_extract] computes for a symlink member ([link_name]). *)
Definition link_name_of (output_dir : string) (file_info : ZipInfo) : list string :=
  os_path_normpath (os_path_join output_dir (filename file_info)).

(** The paths at which [_extract] may replace an object by a link. *)
Definition link_site (output_dir : string) (file_info : ZipInfo) (q : list string) : Prop :=
  _is_symlink file_info = true ∧ q = link_name_of output_dir file_info.



(** The only new objects of [w'] are directories with the default mode. *)
Definition only_new_dirs : relation world := λ w w',
  umask w' = umask w
  ∧ ∀ q n, fs w' !! q = Some n →
      fs w !! q = Some n ∨ n = Dir (default_mode (umask w) 511).

(** The calls a symlink member gives rise to when [_extract] returns. *)
Definition symlink_calls (m : gmap (list string) node) (src : string)
    (link_name : list string) : list event :=
  (if exists_ m (os_path_dirname link_name) then []
   else [EvMakedirs (os_path_dirname link_name)])
  ++ (if lexists m link_name then [EvRemove link_name] else [])
  ++ [EvSymlink src link_name].

(** The path a member is materialised at. *)
Definition entry_path (output_dir : string) (file_info : ZipInfo) : list string :=
  if _is_symlink file_info then link_name_of output_dir file_info
  else ZipFile_targetpath file_info output_dir.

Definition is_chmod (e : event) : bool :=
  match e with EvChmod _ _ _ => true | _ => false end.




(** The calls made from [w] to [w'] all satisfy [P]. *)
Definition grows (P : event → Prop) : relation world :=
  λ w w', ∃ tail, calls w' = calls w ++ tail ∧ Forall P tail.


(** The upper half of the external attributes, as [_set_permissions]
    reads it. *)
Definition stored_mode (file_info : ZipInfo) : Z :=
  Z.shiftr (external_attr file_info) 16.

(** The calls to [chmod] that [unzip] can make for the members [zip_ref]:
    on a member's path, off any link, with the member's stored mode or the
    override; or on the output directory with the override. *)
Definition chmod_allowed (zip_ref : list ZipInfo) (output_dir : string)
    (permission : option Z) (e : event) : Prop :=
  match e with
  | EvChmod q md b =>
      (∃ file_info, file_info ∈ zip_ref
         ∧ q = entry_path output_dir file_info ∧ b = false
         ∧ ((md = stored_mode file_info ∧ md ≠ 0)
            ∨ (permission = Some md ∧ md ≠ 0)))
      ∨ (q = fspath output_dir ∧ permission = Some md ∧ md ≠ 0)
  | _ => True
  end.




(** ** Sample archives and worlds *)

Definition S_IFREG : Z := 32768.
Definition S_IFLNK : Z := 40960.

(** A member made on Unix: file type and permission bits in the upper half
    of the external attributes. *)
Definition regular_member (name : string) (mode : Z) (data : string) : ZipInfo :=
  mkZipInfo name (Z.shiftl (S_IFREG + mode) 16) data.

Definition symlink_member (name target : string) : ZipInfo :=
  mkZipInfo name (Z.shiftl (S_IFLNK + 511) 16) target.


(** [/tmp/a.zip] holding [c], beside an empty directory [/tmp/out]. *)
Definition sample_fs (c : content) : gmap (list string) node :=
  <[ ["tmp"; "a.zip"] := File c 420 ]>
  (<[ ["tmp"; "out"] := Dir 493 ]>
  (<[ ["tmp"] := Dir 493 ]>
  (<[ [] := Dir 493 ]> ∅)))%string.

Definition sample_world (c : content) : world := mkWorld (sample_fs c) 18 [].

(** A file [d/f], then a link that wants the place of the directory [d]. *)
Definition members_link_over_dir : list ZipInfo :=
  [regular_member "d/f" 420 "data"; symlink_member "d" "elsewhere"]%string.

(** The sample world with [n] already at [/tmp/out/d]. *)
Definition occupied_world (n : node) : world :=
  mkWorld (<[ ["tmp"; "out"; "d"] := n ]> (sample_fs (Bytes "PK")))%string 18 [].


(** The sample world with a link [/tmp/out/d] that resolves to nothing. *)
Definition dangling_world : world := occupied_world (Symlink "nowhere").

(** A file under a directory the archive does not list, then a link. *)
Definition members_file_then_link : list ZipInfo :=
  [regular_member "d/f" 420 "data"; symlink_member "l" "d/f"]%string.

(** ** Reasoning about the monad *)

Section monad_facts.
Context {A B : Type}.
Implicit Types (c : M A) (k : A → M B) (w : world).

Lemma bind_ok c k w a w1 :
  c w = (Ok a, w1) → (c ≫= k) w = k a w1.
Proof. intros H. unfold mbind, M_bind. by rewrite H. Qed.

Lemma bind_raise c k w e w1 :
  c w = (Raise e, w1) → (c ≫= k) w = (Raise e, w1).
Proof. intros H. unfold mbind, M_bind. by rewrite H. Qed.

Lemma bind_inv c k w r w' :
  (c ≫= k) w = (r, w') →
  (∃ a w1, c w = (Ok a, w1) ∧ k a w1 = (r, w'))
  ∨ (∃ e, c w = (Raise e, w') ∧ r = Raise e).
Proof.
  unfold mbind, M_bind. destruct (c w) as [[a|e] w1]; intros H.
  - left. eauto.
  - right. inversion H; subst. eauto.
Qed.

Lemma bind_ok_inv c k w b w' :
  (c ≫= k) w = (Ok b, w') →
  ∃ a w1, c w = (Ok a, w1) ∧ k a w1 = (Ok b, w').
Proof.
  intros H. apply bind_inv in H as [H|[e [_ H]]]; [done | discriminate].
Qed.
End monad_facts.

Lemma bind_ext {A B} (c c' : M A) (k k' : A → M B) w :
  c w = c' w → (∀ a w1, k a w1 = k' a w1) → (c ≫= k) w = (c' ≫= k') w.
Proof.
  intros Hc Hk. unfold mbind, M_bind. rewrite Hc.
  destruct (c' w) as [[a|e] w1]; [apply Hk | done].
Qed.



Lemma bind_assoc {A B C} (c : M A) (k : A → M B) (k' : B → M C) w :
  ((c ≫= k) ≫= k') w = (c ≫= λ a, k a ≫= k') w.
Proof. unfold mbind, M_bind. by destruct (c w) as [[a|e] w1]. Qed.

Lemma ret_inv {A} (a : A) (w : world) r w' :
  (mret a : M A) w = (r, w') → r = Ok a ∧ w' = w.
Proof. by inversion 1. Qed.

Lemma run_world {A} (r r' : result A) (w w' : world) : (r, w) = (r', w') → w = w'.
Proof. by inversion 1. Qed.
(** ** Symlink classification *)

Lemma shiftr_28_range (v : Z) :
  0 ≤ v < 2 ^ 32 → 0 ≤ Z.shiftr v 28 < 16.
Proof.
  intros Hv. rewrite Z.shiftr_div_pow2 by lia.
  split; [apply Z.div_pos; lia | apply Z.div_lt_upper_bound; lia].
Qed.

Lemma nibble_of_sum (hi lo : Z) :
  0 ≤ lo < 2 ^ 28 → Z.shiftr (hi * 2 ^ 28 + lo) 28 = hi.
Proof.
  intros Hlo. rewrite Z.shiftr_div_pow2 by lia.
  rewrite Z.add_comm, Z.div_add by lia.
  rewrite Z.div_small by lia. lia.
Qed.

(** C1. [_is_symlink] is a function of the external-attributes value alone
    (it takes no world and returns a [bool], so it has no effect), and on a
    32-bit unsigned value it answers [true] exactly when bits 31..28 read
    1010 (0xA); writing the value as [hi * 2^28 + lo], the answer is
    [hi = 10] whatever the low 28 bits [lo] are. *)
Theorem is_symlink_top_nibble (file_info : ZipInfo) :
  0 ≤ external_attr file_info < 2 ^ 32 →
  (_is_symlink file_info = true ↔
     Z.testbit (external_attr file_info) 31 = true
     ∧ Z.testbit (external_attr file_info) 30 = false
     ∧ Z.testbit (external_attr file_info) 29 = true
     ∧ Z.testbit (external_attr file_info) 28 = false)
  ∧ (∀ hi lo name data, 0 ≤ hi < 16 → 0 ≤ lo < 2 ^ 28 →
       external_attr file_info = hi * 2 ^ 28 + lo →
       _is_symlink file_info = (hi =? 10)
       ∧ ∀ lo', 0 ≤ lo' < 2 ^ 28 →
           _is_symlink (mkZipInfo name (hi * 2 ^ 28 + lo') data)
           = _is_symlink file_info).
Proof.
  intros Hv. split.
  - unfold _is_symlink.
    pose proof (shiftr_28_range _ Hv) as Hq.
    rewrite <- (Z.shiftr_spec _ 28 3), <- (Z.shiftr_spec _ 28 2),
      <- (Z.shiftr_spec _ 28 1), <- (Z.shiftr_spec _ 28 0) by lia.
    set (q := Z.shiftr (external_attr file_info) 28) in *.
    assert (Hcases : q = 0 ∨ q = 1 ∨ q = 2 ∨ q = 3 ∨ q = 4 ∨ q = 5 ∨ q = 6
                     ∨ q = 7 ∨ q = 8 ∨ q = 9 ∨ q = 10 ∨ q = 11 ∨ q = 12
                     ∨ q = 13 ∨ q = 14 ∨ q = 15) by lia.
    clearbody q.
    repeat (destruct Hcases as [-> | Hcases]); try subst q; cbn;
      intuition congruence.
  - intros hi lo name data Hhi Hlo Heq. unfold _is_symlink.
    rewrite Heq, nibble_of_sum by done. split; [done |].
    intros lo' Hlo'. simpl external_attr. by rewrite nibble_of_sum.
Qed.

Lemma is_symlink_top_nibble_witness :
  _is_symlink (mkZipInfo "l" 2717712384 "t") = true.
Proof.
  assert (H : 0 ≤ external_attr (mkZipInfo "l" 2717712384 "t") < 2 ^ 32)
    by (simpl external_attr; lia).
  apply (proj2 (proj1 (is_symlink_top_nibble _ H))).
  simpl external_attr. repeat split; reflexivity.
Defined.

(** ** Effects of the primitives on the file system *)

Global Instance same_meta_refl : Reflexive same_meta.
Proof. by intros n. Qed.

Global Instance same_meta_trans : Transitive same_meta.
Proof. intros n1 n2 n3 [] []; split; congruence. Qed.

Global Instance anything_refl : Reflexive (λ _ _ : node, True).
Proof. done. Qed.

Global Instance anything_trans : Transitive (λ _ _ : node, True).
Proof. done. Qed.

Section tracks.
Context (Rn : relation node) `{!Reflexive Rn, !Transitive Rn}.
Context (D : list string → Prop).
Implicit Types (m : gmap (list string) node) (p q : list string).

Lemma tracks_refl m : tracks Rn D m m.
Proof. intros q n _ H. eauto. Qed.

Lemma tracks_trans m1 m2 m3 :
  tracks Rn D m1 m2 → tracks Rn D m2 m3 → tracks Rn D m1 m3.
Proof.
  intros H12 H23 q n HD H1.
  destruct (H12 q n HD H1) as (n2 & H2 & Hm2).
  destruct (H23 q n2 HD H2) as (n3 & H3 & Hm3).
  exists n3. split; [done | by etrans].
Qed.

Lemma tracks_insert_fresh m p n :
  m !! p = None → tracks Rn D m (<[p := n]> m).
Proof.
  intros Hp q n0 _ Hq. exists n0. split; [|done].
  rewrite lookup_insert_ne; [done | congruence].
Qed.

Lemma tracks_insert_rel m p n n' :
  m !! p = Some n → Rn n n' → tracks Rn D m (<[p := n']> m).
Proof.
  intros Hp Hm q n0 _ Hq. destruct (decide (p = q)) as [->|Hne].
  - rewrite lookup_insert_eq. exists n'. split; [done | congruence].
  - rewrite lookup_insert_ne by done. eauto.
Qed.

Lemma tracks_insert_at m p n :
  D p → tracks Rn D m (<[p := n]> m).
Proof.
  intros Hp q n0 Hq Hl. exists n0. split; [|done].
  rewrite lookup_insert_ne; [done | congruence].
Qed.

Lemma tracks_delete_at m p :
  D p → tracks Rn D m (delete p m).
Proof.
  intros Hp q n0 Hq Hl. exists n0. split; [|done].
  rewrite lookup_delete_ne; [done | congruence].
Qed.

Global Instance wtracks_refl : Reflexive (wtracks Rn D).
Proof. intros w. apply tracks_refl. Qed.

Global Instance wtracks_trans : Transitive (wtracks Rn D).
Proof. intros w1 w2 w3. apply tracks_trans. Qed.
End tracks.

Lemma tracks_weaken Rn (D D' : list string → Prop) m m' :
  (∀ q, D q → D' q) → tracks Rn D m m' → tracks Rn D' m m'.
Proof. intros HD H q n Hq. apply H. naive_solver. Qed.

Lemma keeps_survives D m m' : keeps_but D m m' → survives_but D m m'.
Proof. intros H q n Hq Hl. destruct (H q n Hq Hl) as (n' & ? & _). eauto. Qed.

(** *** File-system transformers *)

Lemma fs_create_Ok n p m m' :
  fs_create n p m = Ok m' →
  m !! p = None ∧ (∃ md, m !! os_path_dirname p = Some (Dir md)) ∧ m' = <[p := n]> m.
Proof.
  unfold fs_create, parent_check. destruct (m !! p); [done|].
  destruct (m !! os_path_dirname p) as [[]|]; try done.
  inversion 1. eauto.
Qed.

Lemma fs_remove_Ok p um m m' :
  fs_remove p um m = Ok m' →
  (∃ n, m !! p = Some n ∧ ∀ md, n ≠ Dir md) ∧ m' = delete p m.
Proof.
  unfold fs_remove. destruct (m !! p) as [[]|]; try done; inversion 1; eauto.
Qed.


Lemma follow_id k m p :
  islink m p = false → follow k m p = Some p.
Proof.
  unfold islink. destruct k; simpl; by destruct (m !! p) as [[]|].
Qed.

Lemma stat_not_link m p : islink m p = false → stat m p = m !! p.
Proof. intros H. unfold stat. by rewrite follow_id. Qed.

Lemma stat_Some_lexists m p n : stat m p = Some n → lexists m p = true.
Proof.
  unfold stat, lexists, MAXSYMLINKS. simpl.
  destruct (m !! p) as [[]|] eqn:Hp; try done.
  by rewrite Hp.
Qed.

Lemma fs_chmod_Ok p mode um m m' :
  fs_chmod p mode um m = Ok m' →
  ∃ q n, follow MAXSYMLINKS m p = Some q ∧ m !! q = Some n
         ∧ m' = <[q := set_mode n (Z.land mode 4095)]> m.
Proof.
  unfold fs_chmod. destruct (follow _ _ _) as [q|]; [|done].
  destruct (m !! q) eqn:Hq; [|done]. inversion 1. eauto.
Qed.

Lemma fs_write_Ok p c um m m' :
  fs_write p c um m = Ok m' →
  ∃ q, follow MAXSYMLINKS m p = Some q
       ∧ ((∃ c0 md, m !! q = Some (File c0 md) ∧ m' = <[q := File c md]> m)
          ∨ (m !! q = None ∧ m' = <[q := File c (default_mode um 438)]> m)).
Proof.
  unfold fs_write. destruct (follow _ _ _) as [q|]; [|done].
  intros H. exists q. split; [done|].
  destruct (m !! q) as [[]|] eqn:Hq; try done.
  - inversion H. left. eauto.
  - destruct (parent_check m q); [done|]. inversion H. by right.
Qed.

Lemma fs_create_tracks Rn `{!Reflexive Rn} D n p m m' :
  fs_create n p m = Ok m' → tracks Rn D m m'.
Proof.
  intros (Hp & _ & ->)%fs_create_Ok. by apply tracks_insert_fresh.
Qed.

Lemma fs_write_keeps D p c um m m' :
  fs_write p c um m = Ok m' → keeps_but D m m'.
Proof.
  intros (q & _ & [(c0 & md & Hq & ->)|[Hq ->]])%fs_write_Ok.
  - by eapply tracks_insert_rel.
  - by apply tracks_insert_fresh; [apply _|].
Qed.

Lemma fs_chmod_survives D p mode um m m' :
  fs_chmod p mode um m = Ok m' → survives_but D m m'.
Proof.
  intros (q & n & _ & Hq & ->)%fs_chmod_Ok. by eapply tracks_insert_rel.
Qed.

Lemma fs_remove_tracks Rn `{!Reflexive Rn} (D : list string → Prop) p um m m' :
  D p → fs_remove p um m = Ok m' → tracks Rn D m m'.
Proof. intros HD [_ ->]%fs_remove_Ok. by apply tracks_delete_at. Qed.

Lemma fs_write_lookup p c um m m' :
  fs_write p c um m = Ok m' → is_Some (m' !! p).
Proof.
  intros (q & Hf & H)%fs_write_Ok.
  assert (Hq : is_Some (m' !! q)).
  { destruct H as [(c0 & md & _ & ->)|[_ ->]]; rewrite lookup_insert_eq; eauto. }
  destruct (decide (q = p)) as [->|Hne]; [done|].
  assert (Hp : islink m p = true).
  { destruct (islink m p) eqn:Hl; [done|]. rewrite follow_id in Hf by done. congruence. }
  unfold islink in Hp. destruct (m !! p) as [[]|] eqn:Hmp; try done.
  destruct H as [(c0 & md & _ & ->)|[_ ->]]; rewrite lookup_insert_ne by done;
    rewrite Hmp; eauto.
Qed.
(** ** Computations that stay within a relation *)

Section respects.
Context (R : relation world) `{!Reflexive R, !Transitive R}.

Lemma respects_ret {A} (a : A) : respects R (mret a).
Proof. intros w r w'. inversion 1. done. Qed.

Lemma respects_raise {A} e : respects R (@raise A e).
Proof. intros w r w'. inversion 1. done. Qed.

Lemma respects_gets {A} (f : gmap (list string) node → A) : respects R (gets f).
Proof. intros w r w'. inversion 1. done. Qed.

Lemma respects_bind {A B} (c : M A) (k : A → M B) :
  respects R c → (∀ a, respects R (k a)) → respects R (c ≫= k).
Proof.
  intros Hc Hk w r w' [(a & w1 & H1 & H2)|(e & H1 & _)]%bind_inv.
  - etrans; [by eapply Hc | by eapply Hk].
  - by eapply Hc.
Qed.

Lemma respects_when b c : respects R c → respects R (when b c).
Proof. destruct b; [done | intros _; apply respects_ret]. Qed.

Lemma respects_except c :
  respects R c → respects R (except_FileExistsError_pass c).
Proof.
  intros Hc w r w'. unfold except_FileExistsError_pass.
  destruct (c w) as [[[]|e] w1] eqn:Hw; [|destruct e]; inversion 1; subst;
    by eapply Hc.
Qed.
End respects.

Lemma respects_mono {A} (R R' : relation world) (c : M A) :
  (∀ w w', R w w' → R' w w') → respects R c → respects R' c.
Proof. intros HR Hc w r w' H. eapply HR, Hc, H. Qed.

Ltac respects_step :=
  lazymatch goal with
  | |- respects _ (mret _) => apply respects_ret; apply _
  | |- respects _ (raise _) => apply respects_raise; apply _
  | |- respects _ (gets _) => apply respects_gets; apply _
  | |- respects _ (os_path_islink _) => apply respects_gets; apply _
  | |- respects _ (os_path_lexists _) => apply respects_gets; apply _
  | |- respects _ (os_path_exists _) => apply respects_gets; apply _
  | |- respects _ (os_path_isdir _) => apply respects_gets; apply _
  | |- respects _ (_ ≫= _) => apply respects_bind; try apply _; [| intros ?]
  | |- respects _ (when _ _) => apply respects_when; try apply _
  | |- respects _ (except_FileExistsError_pass _) => apply respects_except
  end.

Section respects_tracks.
Context (Rn : relation node) `{!Reflexive Rn, !Transitive Rn}.
Context (D : list string → Prop).

Lemma respects_emit e : respects (wtracks Rn D) (emit e).
Proof. intros w r w'. inversion 1. apply tracks_refl; apply _. Qed.

Lemma respects_lift f :
  (∀ um m m', f um m = Ok m' → tracks Rn D m m') →
  respects (wtracks Rn D) (lift f).
Proof.
  intros Hf w r w'. unfold lift.
  destruct (f (umask w) (fs w)) as [m'|e] eqn:Hm; inversion 1; subst.
  - by eapply Hf.
  - apply tracks_refl; apply _.
Qed.

Lemma respects_os_mkdir p : respects (wtracks Rn D) (os_mkdir p).
Proof. apply respects_lift. intros um m m'. by apply fs_create_tracks. Qed.

Lemma respects_makedirs_rev rname : respects (wtracks Rn D) (makedirs_rev rname).
Proof.
  induction rname as [|c rhead IH]; [apply respects_os_mkdir|].
  cbn [makedirs_rev]. repeat respects_step; [done | apply respects_os_mkdir].
Qed.

Lemma respects_os_makedirs name : respects (wtracks Rn D) (os_makedirs name).
Proof.
  unfold os_makedirs. respects_step;
    [apply respects_emit | apply respects_makedirs_rev].
Qed.

Lemma respects_os_symlink src p : respects (wtracks Rn D) (os_symlink src p).
Proof.
  unfold os_symlink. respects_step; [apply respects_emit|].
  apply respects_lift. intros um m m'. by apply fs_create_tracks.
Qed.

Lemma respects_os_remove p : D p → respects (wtracks Rn D) (os_remove p).
Proof.
  intros HD. unfold os_remove. respects_step; [apply respects_emit|].
  apply respects_lift. intros um m m'. by apply fs_remove_tracks.
Qed.

Lemma respects_ZipFile_read zip_ref name : respects (wtracks Rn D) (ZipFile_read zip_ref name).
Proof.
  unfold ZipFile_read. destruct (ZipFile_getinfo _ _); respects_step.
Qed.

Lemma respects_bytes_decode b : respects (wtracks Rn D) (bytes_decode b).
Proof. unfold bytes_decode. destruct (decode_utf8 _); respects_step. Qed.
End respects_tracks.
(** ** What the extractor leaves in place *)

Ltac respects_prim :=
  first
    [ apply respects_emit | apply respects_os_mkdir | apply respects_makedirs_rev
    | apply respects_os_makedirs | apply respects_os_symlink
    | apply respects_ZipFile_read | apply respects_bytes_decode ];
  try apply _.

Ltac respects_go := repeat first [respects_prim | respects_step].

Lemma respects_ZipFile_extract D zip_ref member path :
  respects (wtracks same_meta D) (ZipFile_extract zip_ref member path).
Proof.
  unfold ZipFile_extract. respects_go.
  destruct (ZipInfo_is_dir member); respects_go.
  apply respects_lift; try apply _. intros um m m'. apply fs_write_keeps.
Qed.

Lemma respects_os_chmod D p mode :
  respects (wtracks (λ _ _, True) D) (os_chmod p mode).
Proof.
  unfold os_chmod. respects_go.
  apply respects_lift; try apply _. intros um m m'. apply fs_chmod_survives.
Qed.

(** [_extract] leaves every object where it was, with its kind and mode,
    except for what a symlink member finds at its own path. *)
Lemma respects_extract file_info output_dir zip_ref :
  respects (wtracks same_meta (link_site output_dir file_info))
    (_extract file_info output_dir zip_ref).
Proof.
  unfold _extract. destruct (_is_symlink file_info) eqn:Hsym; cbn [negb].
  - repeat (respects_go; cbv zeta). apply respects_os_remove; try apply _; done.
  - apply respects_ZipFile_extract.
Qed.

Lemma respects_set_permissions D zip_file_info extracted_path :
  respects (wtracks (λ _ _, True) D) (_set_permissions zip_file_info extracted_path).
Proof.
  unfold _set_permissions. destruct (_ =? 0); respects_go.
  apply respects_os_chmod.
Qed.

Lemma respects_override_permissions D path permission :
  respects (wtracks (λ _ _, True) D) (_override_permissions path permission).
Proof.
  unfold _override_permissions. destruct permission; repeat respects_step.
  apply respects_os_chmod.
Qed.

Lemma wtracks_keeps_survives D w w' :
  wtracks same_meta D w w' → wtracks (λ _ _, True) D w w'.
Proof. apply keeps_survives. Qed.

(** One turn of the loop never makes an object disappear, except what a
    symlink member finds at its own path. *)
Lemma respects_unzip_entry zip_ref output_dir permission file_info :
  respects (wtracks (λ _ _, True) (link_site output_dir file_info))
    (unzip_entry zip_ref output_dir permission file_info).
Proof.
  unfold unzip_entry. repeat respects_step.
  - eapply respects_mono; [apply wtracks_keeps_survives | apply respects_extract].
  - apply respects_set_permissions.
  - apply respects_override_permissions.
Qed.

Lemma respects_unzip_loop zip_ref infolist output_dir permission extracted_path :
  respects
    (wtracks (λ _ _, True)
       (λ q, ∃ file_info, file_info ∈ infolist ∧ link_site output_dir file_info q))
    (unzip_loop zip_ref infolist output_dir permission extracted_path).
Proof.
  revert extracted_path.
  induction infolist as [|file_info rest IH]; intros extracted_path;
    cbn [unzip_loop]; repeat respects_step.
  - eapply respects_mono; [|apply respects_unzip_entry].
    intros w w'. apply tracks_weaken. intros q Hq. exists file_info.
    split; [left | done].
  - eapply respects_mono; [|apply IH].
    intros w w'. apply tracks_weaken. intros q (fi & Hfi & Hq). exists fi.
    split; [by right | done].
Qed.
(** ** Opening the archive *)


Lemma unzip_opened zip_file_path output_dir permission w zip_ref :
  ZipFile_open (fspath zip_file_path) w = (Ok zip_ref, w) →
  unzip zip_file_path output_dir permission w =
  (last ← unzip_loop zip_ref zip_ref output_dir permission None;
   extracted_path ← read_local last;
   l ← os_path_islink extracted_path;
   when (negb l) (_override_permissions (fspath output_dir) permission);;
   os_remove (fspath zip_file_path)) w.
Proof. intros H. unfold unzip. by erewrite bind_ok. Qed.

Lemma ZipFile_open_world p w r w' :
  ZipFile_open p w = (r, w') → w' = w.
Proof.
  unfold ZipFile_open.
  destruct (stat (fs w) p) as [[[b|ms] md|md|t]|]; by inversion 1.
Qed.

Lemma ZipFile_open_archive p w ms md :
  stat (fs w) p = Some (File (Archive ms) md) →
  ZipFile_open p w = (Ok ms, w).
Proof. intros H. unfold ZipFile_open. by rewrite H. Qed.

(** ** The calls, one by one *)

Lemma lift_inv f w r w' :
  lift f w = (r, w') →
  (∃ m', f (umask w) (fs w) = Ok m' ∧ r = Ok tt ∧ w' = set_fs m' w)
  ∨ (∃ e, f (umask w) (fs w) = Raise e ∧ r = Raise e ∧ w' = w).
Proof.
  unfold lift. destruct (f _ _) as [m'|e]; inversion 1; subst; eauto.
Qed.

Lemma os_remove_inv p w r w' :
  os_remove p w = (r, w') →
  calls w' = calls w ++ [EvRemove p] ∧ umask w' = umask w
  ∧ ((r = Ok tt ∧ fs w' = delete p (fs w)
      ∧ ∃ n, fs w !! p = Some n ∧ ∀ md, n ≠ Dir md)
     ∨ (∃ e, r = Raise e ∧ fs w' = fs w)).
Proof.
  unfold os_remove. intros H. erewrite bind_ok in H by reflexivity.
  apply lift_inv in H as [(m' & Hm & -> & ->)|(e & Hm & -> & ->)]; cbn.
  - apply fs_remove_Ok in Hm as [Hn ->]. eauto 10.
  - eauto 10.
Qed.

Lemma os_symlink_inv src p w r w' :
  os_symlink src p w = (r, w') →
  calls w' = calls w ++ [EvSymlink src p] ∧ umask w' = umask w
  ∧ ((r = Ok tt ∧ fs w' = <[p := Symlink src]> (fs w) ∧ fs w !! p = None
      ∧ ∃ md, fs w !! os_path_dirname p = Some (Dir md))
     ∨ (∃ e, r = Raise e ∧ fs w' = fs w)).
Proof.
  unfold os_symlink. intros H. erewrite bind_ok in H by reflexivity.
  apply lift_inv in H as [(m' & Hm & -> & ->)|(e & Hm & -> & ->)]; cbn.
  - apply fs_create_Ok in Hm as (Hn & Hd & ->). eauto 10.
  - eauto 10.
Qed.

Lemma os_chmod_inv p mode w r w' :
  os_chmod p mode w = (r, w') →
  calls w' = calls w ++ [EvChmod p mode (islink (fs w) p)] ∧ umask w' = umask w
  ∧ ((r = Ok tt
      ∧ ∃ q n, follow MAXSYMLINKS (fs w) p = Some q ∧ fs w !! q = Some n
               ∧ fs w' = <[q := set_mode n (Z.land mode 4095)]> (fs w))
     ∨ (∃ e, r = Raise e ∧ fs w' = fs w)).
Proof.
  unfold os_chmod. intros H.
  erewrite bind_ok in H by reflexivity.
  erewrite bind_ok in H by reflexivity.
  apply lift_inv in H as [(m' & Hm & -> & ->)|(e & Hm & -> & ->)]; cbn.
  - apply fs_chmod_Ok in Hm as (q & n & Hq & Hn & ->). eauto 10.
  - eauto 10.
Qed.

Lemma override_inv path permission w r w' :
  _override_permissions path permission w = (r, w') →
  (truthy permission = false ∧ r = Ok tt ∧ w' = w)
  ∨ (∃ m, permission = Some m ∧ truthy permission = true
          ∧ os_chmod path m w = (r, w')).
Proof.
  unfold _override_permissions. destruct permission as [m|]; cbn.
  - destruct (m =? 0); cbn; [inversion 1|]; eauto.
  - inversion 1; eauto.
Qed.

Lemma read_local_inv last w r w' :
  read_local last w = (r, w') →
  w' = w ∧ ((∃ p, last = Some p ∧ r = Ok p)
            ∨ (last = None ∧ r = Raise UnboundLocalError)).
Proof. destruct last; inversion 1; eauto. Qed.

(** The three ways through [unzip] once the archive is open. *)
Lemma unzip_inv zip_file_path output_dir permission w zip_ref r w' :
  ZipFile_open (fspath zip_file_path) w = (Ok zip_ref, w) →
  unzip zip_file_path output_dir permission w = (r, w') →
  (∃ e, unzip_loop zip_ref zip_ref output_dir permission None w = (Raise e, w')
        ∧ r = Raise e)
  ∨ (unzip_loop zip_ref zip_ref output_dir permission None w = (Ok None, w')
     ∧ r = Raise UnboundLocalError)
  ∨ (∃ p w1,
       unzip_loop zip_ref zip_ref output_dir permission None w = (Ok (Some p), w1)
       ∧ (when (negb (islink (fs w1) p))
            (_override_permissions (fspath output_dir) permission);;
          os_remove (fspath zip_file_path)) w1 = (r, w')).
Proof.
  intros Hopen. erewrite unzip_opened by done.
  intros [(last & w1 & Hloop & H)|(e & Hloop & ->)]%bind_inv; [|eauto].
  destruct last as [p|].
  - right; right. exists p, w1. split; [done|].
    erewrite bind_ok in H by reflexivity.
    by erewrite bind_ok in H by reflexivity.
  - right; left. erewrite bind_raise in H by reflexivity. by inversion H; subst.
Qed.

Lemma os_remove_ok p w n :
  fs w !! p = Some n → (∀ md, n ≠ Dir md) →
  os_remove p w
  = (Ok tt, mkWorld (delete p (fs w)) (umask w) (calls w ++ [EvRemove p])).
Proof.
  intros Hn Hnd. unfold os_remove. erewrite bind_ok by reflexivity.
  unfold lift, fs_remove. cbn. rewrite Hn. destruct n; try done.
  by destruct (Hnd mode).
Qed.

Lemma os_remove_dir p w md :
  fs w !! p = Some (Dir md) →
  os_remove p w = (Raise IsADirectoryError, add_call (EvRemove p) w).
Proof.
  intros Hn. unfold os_remove. erewrite bind_ok by reflexivity.
  unfold lift, fs_remove. cbn. by rewrite Hn.
Qed.

Lemma os_symlink_ok src p w md :
  fs w !! p = None → fs w !! os_path_dirname p = Some (Dir md) →
  os_symlink src p w
  = (Ok tt, mkWorld (<[p := Symlink src]> (fs w)) (umask w)
              (calls w ++ [EvSymlink src p])).
Proof.
  intros Hn Hd. unfold os_symlink. erewrite bind_ok by reflexivity.
  unfold lift, fs_symlink, fs_create, parent_check. cbn. by rewrite Hn, Hd.
Qed.
(** ** [os.mkdir] and [os.makedirs] *)

Lemma os_mkdir_inv p w r w' :
  os_mkdir p w = (r, w') →
  calls w' = calls w ∧ umask w' = umask w
  ∧ ((r = Ok tt ∧ fs w !! p = None
      ∧ (∃ md, fs w !! os_path_dirname p = Some (Dir md))
      ∧ fs w' = <[p := Dir (default_mode (umask w) 511)]> (fs w))
     ∨ (∃ e, r = Raise e ∧ w' = w)).
Proof.
  intros [(m' & Hm & -> & ->)|(e & Hm & -> & ->)]%lift_inv; cbn.
  - apply fs_create_Ok in Hm as (Hn & Hd & ->). eauto 10.
  - eauto 10.
Qed.

Lemma os_mkdir_root_raises w r w' :
  os_mkdir [] w = (r, w') → ∃ e, r = Raise e ∧ w' = w.
Proof.
  intros (_ & _ & [(_ & Hn & (md & Hd) & _)|H])%os_mkdir_inv; [|done].
  cbn in Hd. congruence.
Qed.

Lemma except_pass_inv c w r w' :
  except_FileExistsError_pass c w = (r, w') → ∃ r0, c w = (r0, w').
Proof.
  unfold except_FileExistsError_pass.
  destruct (c w) as [[[]|e] w1]; [|destruct e]; inversion 1; subst; eauto.
Qed.

Lemma prefix_snoc_r {A} (q l : list A) (c : A) :
  q `prefix_of` l → q `prefix_of` l ++ [c].
Proof. intros [k ->]. exists (k ++ [c]). by rewrite (assoc_L (++)). Qed.

(** [os.makedirs] makes no call of its own and touches nothing but the
    path and the directories above it. *)
Lemma makedirs_rev_inv rname w r w' :
  makedirs_rev rname w = (r, w') →
  calls w' = calls w ∧ umask w' = umask w
  ∧ (∀ q, ¬ q `prefix_of` rev rname → fs w' !! q = fs w !! q)
  ∧ (r = Ok tt → ∃ md, fs w' !! rev rname = Some (Dir md)).
Proof.
  revert w r w'. induction rname as [|c rhead IH]; intros w r w' H.
  - apply os_mkdir_root_raises in H as (e & -> & ->). done.
  - cbn [makedirs_rev] in H.
    erewrite bind_ok in H by reflexivity.
    apply bind_inv in H as [([] & w1 & Hup & Hmk)|(e & Hup & ->)].
    + assert (Hw1 : calls w1 = calls w ∧ umask w1 = umask w
                ∧ ∀ q, ¬ q `prefix_of` rev rhead → fs w1 !! q = fs w !! q).
      { destruct (exists_ (fs w) (rev rhead)); cbn in Hup.
        - by inversion Hup.
        - apply except_pass_inv in Hup as [r0 Hup].
          apply IH in Hup as (? & ? & ? & _). done. }
      destruct Hw1 as (Hc1 & Hu1 & Hf1).
      apply os_mkdir_inv in Hmk
        as (Hc & Hu & [(-> & Hn & _ & Hfs)|(e & -> & ->)]).
      * split; [congruence|]. split; [congruence|]. split.
        -- intros q Hq. rewrite Hfs.
           rewrite lookup_insert_ne by (intros <-; by apply Hq).
           apply Hf1. cbn [rev] in Hq. intros Hp. by apply Hq, prefix_snoc_r.
        -- intros _. rewrite Hfs, lookup_insert_eq. eauto.
      * split; [done|]. split; [done|]. split; [|done].
        intros q Hq. apply Hf1. cbn [rev] in Hq.
        intros Hp. by apply Hq, prefix_snoc_r.
    + destruct (exists_ (fs w) (rev rhead)); cbn in Hup; [by inversion Hup|].
      apply except_pass_inv in Hup as [r0 Hup].
      apply IH in Hup as (Hc & Hu & Hf & _).
      split; [done|]. split; [done|]. split; [|done].
      intros q Hq. apply Hf. cbn [rev] in Hq.
      intros Hp. by apply Hq, prefix_snoc_r.
Qed.

Lemma dirname_snoc (l : list string) (c : string) :
  os_path_dirname (l ++ [c]) = l.
Proof. apply removelast_last. Qed.

Lemma exists_dir m p md : m !! p = Some (Dir md) → exists_ m p = true.
Proof.
  intros H. unfold exists_. rewrite stat_not_link, H; [done|].
  unfold islink. by rewrite H.
Qed.

Lemma exists_absent m p : m !! p = None → exists_ m p = false.
Proof.
  intros H. unfold exists_. rewrite stat_not_link, H; [done|].
  unfold islink. by rewrite H.
Qed.

Lemma not_prefix_snoc {A} (l : list A) (c : A) : ¬ (l ++ [c]) `prefix_of` l.
Proof.
  intros Hp%prefix_length. rewrite length_app in Hp. cbn in Hp. lia.
Qed.



Global Instance only_new_dirs_refl : Reflexive only_new_dirs.
Proof. intros w. split; eauto. Qed.

Global Instance only_new_dirs_trans : Transitive only_new_dirs.
Proof.
  intros w1 w2 w3 [Hu12 H12] [Hu23 H23]. split; [congruence|].
  intros q n Hq. destruct (H23 q n Hq) as [H| ->]; [by apply H12 | right; congruence].
Qed.

Lemma makedirs_rev_new rname : respects only_new_dirs (makedirs_rev rname).
Proof.
  assert (Hmk : ∀ p, respects only_new_dirs (os_mkdir p)).
  { intros p w r w' (_ & Hu & [(_ & _ & _ & Hfs)|(e & _ & ->)])%os_mkdir_inv;
      [|done].
    split; [done|]. intros q n. rewrite Hfs.
    destruct (decide (p = q)) as [->|Hne].
    - rewrite lookup_insert_eq. inversion 1. by right.
    - rewrite lookup_insert_ne by done. by left. }
  induction rname as [|c rhead IH]; [apply Hmk|].
  cbn [makedirs_rev]. repeat respects_step; [done | apply Hmk].
Qed.

Lemma makedirs_rev_mono rname w r w' :
  makedirs_rev rname w = (r, w') → fs w ⊆ fs w'.
Proof.
  intros H. apply map_subseteq_spec. intros q n Hq.
  destruct (respects_makedirs_rev eq (λ _, False) rname w r w' H q n) as (n' & Hn' & ->);
    [tauto | done | done].
Qed.

(** ** [_extract] on a symlink member *)

Lemma os_makedirs_inv name w r w' :
  os_makedirs name w = (r, w') →
  calls w' = calls w ++ [EvMakedirs name] ∧ umask w' = umask w
  ∧ fs w ⊆ fs w'
  ∧ (∀ q, ¬ q `prefix_of` name → fs w' !! q = fs w !! q)
  ∧ (∀ q n, fs w' !! q = Some n →
       fs w !! q = Some n ∨ n = Dir (default_mode (umask w) 511))
  ∧ (r = Ok tt → name ≠ [] ∧ ∃ md, fs w' !! name = Some (Dir md)).
Proof.
  unfold os_makedirs. intros H. erewrite bind_ok in H by reflexivity.
  pose proof (makedirs_rev_inv _ _ _ _ H) as (Hc & Hu & Hf & Hd).
  pose proof (makedirs_rev_mono _ _ _ _ H) as Hsub.
  pose proof (makedirs_rev_new _ _ _ _ H) as [_ Hnew].
  rewrite rev_involutive in Hf, Hd. cbn in *.
  do 5 (split; [done|]). intros ->. split; [|by apply Hd].
  intros ->. cbn in H. by apply os_mkdir_root_raises in H as (e & ? & _).
Qed.

Lemma link_not_above (p : list string) :
  p ≠ [] → ¬ p `prefix_of` os_path_dirname p.
Proof.
  intros Hp. destruct (exists_last Hp) as (l & c & ->).
  rewrite dirname_snoc. apply not_prefix_snoc.
Qed.

Lemma extract_symlink_unfold file_info output_dir zip_ref w zi src :
  _is_symlink file_info = true →
  ZipFile_getinfo zip_ref (filename file_info) = Some zi →
  decode_utf8 (payload zi) = Some src →
  _extract file_info output_dir zip_ref w =
  (when (negb (exists_ (fs w) (os_path_dirname (link_name_of output_dir file_info))))
     (os_makedirs (os_path_dirname (link_name_of output_dir file_info)));;
   lex ← os_path_lexists (link_name_of output_dir file_info);
   when lex (os_remove (link_name_of output_dir file_info));;
   os_symlink src (link_name_of output_dir file_info);;
   mret (link_name_of output_dir file_info)) w.
Proof.
  intros Hs Hg Hd. unfold _extract. rewrite Hs. cbn [negb].
  unfold ZipFile_read. rewrite Hg. erewrite bind_ok by reflexivity.
  unfold bytes_decode. rewrite Hd. erewrite bind_ok by reflexivity.
  cbv zeta. by erewrite bind_ok by reflexivity.
Qed.

Lemma extract_symlink_readable file_info output_dir zip_ref w p w' :
  _is_symlink file_info = true →
  _extract file_info output_dir zip_ref w = (Ok p, w') →
  ∃ zi src, ZipFile_getinfo zip_ref (filename file_info) = Some zi
            ∧ decode_utf8 (payload zi) = Some src.
Proof.
  intros Hs. unfold _extract. rewrite Hs. cbn [negb]. unfold ZipFile_read.
  destruct (ZipFile_getinfo _ _) as [zi|]; [|by erewrite bind_raise by reflexivity].
  erewrite bind_ok by reflexivity. unfold bytes_decode.
  destruct (decode_utf8 _) as [src|] eqn:Hd;
    [by eauto | by erewrite bind_raise by reflexivity].
Qed.

Lemma extract_symlink_Ok file_info output_dir zip_ref w p w' zi src :
  _is_symlink file_info = true →
  ZipFile_getinfo zip_ref (filename file_info) = Some zi →
  decode_utf8 (payload zi) = Some src →
  _extract file_info output_dir zip_ref w = (Ok p, w') →
  let link_name := link_name_of output_dir file_info in
  p = link_name
  ∧ calls w' = calls w ++ symlink_calls (fs w) src link_name
  ∧ umask w' = umask w
  ∧ fs w' !! link_name = Some (Symlink src)
  ∧ (∃ md, fs w' !! os_path_dirname link_name = Some (Dir md))
  ∧ (∀ md, fs w !! link_name ≠ Some (Dir md))
  ∧ (∀ q n, q ≠ link_name → fs w !! q = Some n → fs w' !! q = Some n)
  ∧ (∀ q n, q ≠ link_name → fs w' !! q = Some n →
       fs w !! q = Some n
       ∨ (q `prefix_of` os_path_dirname link_name
          ∧ n = Dir (default_mode (umask w) 511))).
Proof.
  intros Hs Hg Hd H link_name.
  erewrite extract_symlink_unfold in H by done. fold link_name in H.
  apply bind_ok_inv in H as ([] & w1 & Hmk & H).
  apply bind_ok_inv in H as (lex & w1' & Hlex & H).
  inversion Hlex; subst lex w1'; clear Hlex.
  apply bind_ok_inv in H as ([] & w2 & Hrm & H).
  apply bind_ok_inv in H as ([] & w3 & Hsl & H).
  inversion H; subst p w3; clear H.
  (* the leading directories *)
  assert (Hw1 : calls w1 = calls w ++
                  (if exists_ (fs w) (os_path_dirname link_name) then []
                   else [EvMakedirs (os_path_dirname link_name)])
                ∧ umask w1 = umask w
                ∧ fs w1 !! link_name = fs w !! link_name
                ∧ (∀ q n, fs w !! q = Some n → fs w1 !! q = Some n)
                ∧ (∀ q n, fs w1 !! q = Some n →
                     fs w !! q = Some n
                     ∨ (q `prefix_of` os_path_dirname link_name
                        ∧ n = Dir (default_mode (umask w) 511)))).
  { destruct (exists_ (fs w) (os_path_dirname link_name)); cbn in Hmk.
    - inversion Hmk; subst. rewrite app_nil_r. eauto 10.
    - apply os_makedirs_inv in Hmk as (Hc & Hu & Hsub & Hf & Hnew & Hd').
      destruct (Hd' eq_refl) as [Hne _].
      assert (Hl : link_name ≠ []) by (intros El; by rewrite El in Hne).
      repeat split; try done.
      + apply Hf. by apply link_not_above.
      + intros q n Hq. by eapply lookup_weaken.
      + intros q n Hq.
        destruct (decide (q `prefix_of` os_path_dirname link_name)) as [Hp|Hp].
        * destruct (Hnew q n Hq) as [?| ->]; [by left | by right].
        * left. by rewrite <- Hf. }
  destruct Hw1 as (Hc1 & Hu1 & Hl1 & Hold1 & Hnew1).
  (* the removal of what is in the way *)
  assert (Hw2 : calls w2 = calls w1 ++
                  (if lexists (fs w) link_name then [EvRemove link_name] else [])
                ∧ umask w2 = umask w1
                ∧ (∀ md, fs w !! link_name ≠ Some (Dir md))
                ∧ ∀ q, q ≠ link_name → fs w2 !! q = fs w1 !! q).
  { assert (Hlx : lexists (fs w1) link_name = lexists (fs w) link_name)
      by (unfold lexists; by rewrite Hl1).
    rewrite Hlx in Hrm.
    destruct (lexists (fs w) link_name) eqn:Hlex; cbn in Hrm.
    - apply os_remove_inv in Hrm
        as (Hc & Hu & [(_ & Hfs & n & Hn & Hnd)|(? & ? & _)]); [|done].
      repeat split; try done.
      + intros md. rewrite <- Hl1, Hn. intros [= ->]. by eapply Hnd.
      + intros q Hq. by rewrite Hfs, lookup_delete_ne.
    - inversion Hrm; subst. rewrite app_nil_r. repeat split; try done.
      unfold lexists in Hlex. by destruct (fs w !! link_name). }
  destruct Hw2 as (Hc2 & Hu2 & Hnd & Hf2).
  apply os_symlink_inv in Hsl
    as (Hc3 & Hu3 & [(_ & Hfs & Hfree & md & Hpar)|(? & ? & _)]); [|done].
  assert (Hne : os_path_dirname link_name ≠ link_name) by congruence.
  split; [done|]. split.
  { unfold symlink_calls. rewrite Hc3, Hc2, Hc1, <- !(assoc_L (++)). done. }
  split; [congruence|]. split; [by rewrite Hfs, lookup_insert_eq|].
  split; [exists md; by rewrite Hfs, lookup_insert_ne|].
  split; [done|]. split.
  - intros q n Hq Hn. rewrite Hfs, lookup_insert_ne, Hf2 by done. by apply Hold1.
  - intros q n Hq. rewrite Hfs, lookup_insert_ne, Hf2 by done. apply Hnew1.
Qed.
(** ** [ZipFile.extract] and one turn of the loop *)

Lemma islink_lookup m p n : m !! p = Some n → islink m p = is_link n.
Proof. intros H. unfold islink. rewrite H. by destruct n. Qed.

Lemma fs_chmod_ok p mode um m n :
  m !! p = Some n → is_link n = false →
  fs_chmod p mode um m = Ok (<[p := set_mode n (Z.land mode 4095)]> m).
Proof.
  intros Hn Hl. unfold fs_chmod.
  rewrite follow_id by (by rewrite (islink_lookup _ _ n)). by rewrite Hn.
Qed.

Lemma os_chmod_ok p mode w n :
  fs w !! p = Some n → is_link n = false →
  os_chmod p mode w
  = (Ok tt, mkWorld (<[p := set_mode n (Z.land mode 4095)]> (fs w)) (umask w)
              (calls w ++ [EvChmod p mode false])).
Proof.
  intros Hn Hl. unfold os_chmod.
  erewrite bind_ok by reflexivity. erewrite bind_ok by reflexivity.
  assert (Hi : islink (fs w) p = false) by (by rewrite (islink_lookup _ _ n)).
  unfold lift. cbn [fs umask add_call].
  erewrite fs_chmod_ok by done. by rewrite Hi.
Qed.

Lemma when_makedirs_rev_inv b rname w r w' :
  when b (makedirs_rev rname) w = (r, w') →
  calls w' = calls w ∧ umask w' = umask w
  ∧ (∀ q, ¬ q `prefix_of` rev rname → fs w' !! q = fs w !! q)
  ∧ (b = true → r = Ok tt → rname ≠ []).
Proof.
  destruct b; cbn.
  - intros H. pose proof (makedirs_rev_inv _ _ _ _ H) as (? & ? & ? & _).
    do 3 (split; [done|]). intros _ -> ->. cbn in H.
    by apply os_mkdir_root_raises in H as (? & ? & _).
  - inversion 1. done.
Qed.

(** What [ZipFile.extract] reports when it returns. *)
Lemma ZipFile_extract_Ok zip_ref member path w p w' :
  ZipFile_extract zip_ref member path w = (Ok p, w') →
  p = ZipFile_targetpath member path
  ∧ calls w' = calls w ++ [EvExtract (filename member) p]
  ∧ umask w' = umask w
  ∧ is_Some (fs w' !! p)
  ∧ (fs w !! p = None →
     fs w' !! p
     = Some (if ZipInfo_is_dir member then Dir (default_mode (umask w) 511)
             else File (Bytes (payload member)) (default_mode (umask w) 438))).
Proof.
  unfold ZipFile_extract. set (p0 := ZipFile_targetpath member path).
  intros H. erewrite bind_ok in H by reflexivity.
  erewrite bind_ok in H by reflexivity.
  apply bind_ok_inv in H as ([] & w1 & Hup & H).
  apply when_makedirs_rev_inv in Hup as (Hc1 & Hu1 & Hf1 & Hne1).
  rewrite rev_involutive in Hf1. cbn in Hc1, Hu1, Hf1.
  assert (Hfresh : fs w !! p0 = None → fs w1 !! p0 = None).
  { intros Hn. destruct (decide (p0 = [])) as [E|Hp0].
    - exfalso. rewrite E in Hne1, Hn.
      cbn [os_path_dirname removelast rev fs add_call] in Hne1.
      rewrite (exists_absent _ _ Hn) in Hne1. by apply Hne1.
    - rewrite Hf1; [done|]. by apply link_not_above. }
  apply bind_ok_inv in H as ([] & w2 & Hbody & H).
  inversion H; subst p w2; clear H.
  split; [done|].
  destruct (ZipInfo_is_dir member).
  - erewrite bind_ok in Hbody by reflexivity.
    destruct (isdir (fs w1) p0) eqn:Hd; cbn in Hbody.
    + inversion Hbody; subst w'. do 2 (split; [done|]). split.
      * unfold isdir in Hd. destruct (stat (fs w1) p0) as [n|] eqn:Hs; [|done].
        apply stat_Some_lexists in Hs. unfold lexists in Hs.
        by destruct (fs w1 !! p0).
      * intros Hn%Hfresh. unfold isdir in Hd.
        rewrite stat_not_link in Hd by (unfold islink; by rewrite Hn).
        by rewrite Hn in Hd.
    + apply os_mkdir_inv in Hbody as (Hc & Hu & [(_ & _ & _ & Hfs)|(? & ? & _)]);
        [|done].
      split; [congruence|]. split; [congruence|].
      rewrite Hfs, lookup_insert_eq, Hu1. eauto.
  - apply lift_inv in Hbody as [(m' & Hm & _ & ->)|(? & _ & ? & _)]; [|done].
    cbn. do 2 (split; [done|]). split; [by eapply fs_write_lookup|].
    intros Hn%Hfresh.
    apply fs_write_Ok in Hm as (q & Hq & Hm).
    rewrite follow_id in Hq by (unfold islink; by rewrite Hn).
    inversion Hq; subst q.
    destruct Hm as [(c0 & md & Hc0 & _)|[_ ->]]; [congruence|].
    by rewrite lookup_insert_eq, Hu1.
Qed.

Lemma extract_regular file_info output_dir zip_ref :
  _is_symlink file_info = false →
  _extract file_info output_dir zip_ref
  = ZipFile_extract zip_ref file_info output_dir.
Proof. intros Hs. unfold _extract. by rewrite Hs. Qed.

(** Where a member ends up, and that something is there. *)
Lemma extract_Ok file_info output_dir zip_ref w p w' :
  _extract file_info output_dir zip_ref w = (Ok p, w') →
  p = entry_path output_dir file_info
  ∧ umask w' = umask w
  ∧ is_Some (fs w' !! p)
  ∧ (_is_symlink file_info = true → islink (fs w') p = true)
  ∧ ∃ tail, calls w' = calls w ++ tail ∧ Forall (λ e, is_chmod e = false) tail.
Proof.
  intros H. unfold entry_path. destruct (_is_symlink file_info) eqn:Hs.
  - destruct (extract_symlink_readable _ _ _ _ _ _ Hs H) as (zi & src & Hg & Hd).
    pose proof (extract_symlink_Ok _ _ _ _ _ _ _ _ Hs Hg Hd H) as Hok.
    cbv zeta in Hok. destruct Hok as (-> & Hc & Hu & Hl & _).
    split; [done|]. split; [done|]. split; [by rewrite Hl|].
    split; [intros _; unfold islink; by rewrite Hl|].
    eexists. split; [exact Hc|]. unfold symlink_calls.
    destruct (exists_ _ _), (lexists _ _); repeat constructor.
  - rewrite extract_regular in H by done.
    apply ZipFile_extract_Ok in H as (-> & Hc & Hu & Hsome & _).
    split; [done|]. split; [done|]. split; [done|]. split; [done|].
    eexists. split; [exact Hc|]. repeat constructor.
Qed.

Lemma unzip_entry_not_link zip_ref output_dir permission file_info w0 p w :
  _extract file_info output_dir zip_ref w0 = (Ok p, w) →
  islink (fs w) p = false →
  unzip_entry zip_ref output_dir permission file_info w0
  = (_set_permissions file_info p;;
     _override_permissions p permission;;
     mret p) w.
Proof.
  intros H Hl. unfold unzip_entry. erewrite bind_ok by exact H.
  erewrite bind_ok by reflexivity. rewrite Hl. cbn [negb when].
  unfold mbind, M_bind.
  destruct (_set_permissions file_info p w) as [[[]|e] w1]; [|done].
  by destruct (_override_permissions p permission w1) as [[[]|e] w2].
Qed.

Lemma unzip_entry_link zip_ref output_dir permission file_info w0 p w :
  _extract file_info output_dir zip_ref w0 = (Ok p, w) →
  islink (fs w) p = true →
  unzip_entry zip_ref output_dir permission file_info w0 = (Ok p, w).
Proof.
  intros H Hl. unfold unzip_entry. erewrite bind_ok by exact H.
  erewrite bind_ok by reflexivity. by rewrite Hl.
Qed.

Lemma unzip_entry_raises zip_ref output_dir permission file_info w0 e w :
  _extract file_info output_dir zip_ref w0 = (Raise e, w) →
  unzip_entry zip_ref output_dir permission file_info w0 = (Raise e, w).
Proof. intros H. unfold unzip_entry. by erewrite bind_raise. Qed.

Lemma unzip_entry_Ok_inv zip_ref output_dir permission file_info w p w1 :
  unzip_entry zip_ref output_dir permission file_info w = (Ok p, w1) →
  ∃ wa, _extract file_info output_dir zip_ref w = (Ok p, wa)
    ∧ ((islink (fs wa) p = true ∧ w1 = wa)
       ∨ (islink (fs wa) p = false
          ∧ (_set_permissions file_info p;;
             _override_permissions p permission) wa = (Ok tt, w1))).
Proof.
  unfold unzip_entry.
  intros (p' & wa & Hex & H)%bind_ok_inv.
  erewrite bind_ok in H by reflexivity.
  apply bind_ok_inv in H as ([] & w2 & Hperm & H).
  inversion H; subst p' w2; clear H.
  exists wa. split; [done|].
  destruct (islink (fs wa) p); cbn in Hperm.
  - left. by inversion Hperm.
  - by right.
Qed.

Lemma unzip_loop_app zip_ref l1 l2 output_dir permission extracted_path w :
  unzip_loop zip_ref (l1 ++ l2) output_dir permission extracted_path w
  = (unzip_loop zip_ref l1 output_dir permission extracted_path ≫=
     unzip_loop zip_ref l2 output_dir permission) w.
Proof.
  revert extracted_path w. induction l1 as [|file_info l1 IH];
    intros extracted_path w; [done|].
  cbn [app unzip_loop]. rewrite bind_assoc.
  apply bind_ext; [done|]. intros p w1. apply IH.
Qed.

(** After a symlink member, the path last extracted is a link. *)
Lemma unzip_loop_last_link zip_ref init last_member output_dir permission
    extracted_path w p w1 :
  unzip_loop zip_ref (init ++ [last_member]) output_dir permission extracted_path w
  = (Ok (Some p), w1) →
  _is_symlink last_member = true →
  islink (fs w1) p = true.
Proof.
  rewrite unzip_loop_app. intros (ep & w0 & _ & H)%bind_ok_inv Hs.
  cbn [unzip_loop] in H. apply bind_ok_inv in H as (p' & w2 & Hent & H).
  inversion H; subst p' w2; clear H.
  apply unzip_entry_Ok_inv in Hent as (wa & Hex & [[Hl ->]|[Hl _]]); [done|].
  apply extract_Ok in Hex as (_ & _ & _ & Hlink & _).
  rewrite Hlink in Hl; done.
Qed.

Lemma set_permissions_stored zip_file_info extracted_path w n :
  fs w !! extracted_path = Some n → is_link n = false →
  Z.shiftr (external_attr zip_file_info) 16 ≠ 0 →
  _set_permissions zip_file_info extracted_path w
  = (Ok tt,
     mkWorld
       (<[extracted_path :=
            set_mode n (Z.land (Z.shiftr (external_attr zip_file_info) 16) 4095)]>
          (fs w))
       (umask w)
       (calls w
        ++ [EvChmod extracted_path (Z.shiftr (external_attr zip_file_info) 16) false])).
Proof.
  intros Hn Hl Hz. unfold _set_permissions.
  destruct (Z.eqb_spec (Z.shiftr (external_attr zip_file_info) 16) 0); [done|].
  by apply os_chmod_ok.
Qed.

Lemma set_permissions_missing zip_file_info extracted_path w :
  Z.shiftr (external_attr zip_file_info) 16 = 0 →
  _set_permissions zip_file_info extracted_path w
  = (Ok tt, add_call (EvDebug (filename zip_file_info)) w).
Proof. intros Hz. unfold _set_permissions. by rewrite Hz. Qed.

(** ** The override, member by member *)








(** ** The archive that cannot be read, and the empty one *)



(** C8. On a well-formed archive with no member the loop body never runs,
    the read of [extracted_path] after the loop raises [UnboundLocalError],
    and the world is returned as it was: the archive file is still there. *)
Theorem unzip_empty_archive zip_file_path output_dir permission w md :
  stat (fs w) (fspath zip_file_path) = Some (File (Archive []) md) →
  unzip zip_file_path output_dir permission w = (Raise UnboundLocalError, w)
  ∧ lexists (fs w) (fspath zip_file_path) = true.
Proof.
  intros H. split.
  - by erewrite unzip_opened by (eapply ZipFile_open_archive; eauto).
  - eapply stat_Some_lexists; eauto.
Qed.

Lemma unzip_empty_archive_witness :
  unzip "/tmp/a.zip" "/tmp/out" None (sample_world (Archive []))
  = (Raise UnboundLocalError, sample_world (Archive []))
  ∧ lexists (fs (sample_world (Archive []))) (fspath "/tmp/a.zip") = true.
Proof.
  apply (unzip_empty_archive _ _ _ _ 420). vm_compute. reflexivity.
Defined.

(** ** A permission of zero *)

Lemma override_zero path w :
  _override_permissions path (Some 0) w = (Ok tt, w).
Proof. reflexivity. Qed.

Lemma unzip_entry_zero zip_ref output_dir file_info w :
  unzip_entry zip_ref output_dir (Some 0) file_info w
  = unzip_entry zip_ref output_dir None file_info w.
Proof. reflexivity. Qed.

Lemma unzip_loop_zero zip_ref infolist output_dir extracted_path w :
  unzip_loop zip_ref infolist output_dir (Some 0) extracted_path w
  = unzip_loop zip_ref infolist output_dir None extracted_path w.
Proof.
  revert extracted_path w.
  induction infolist as [|file_info rest IH]; intros extracted_path w; [done|].
  cbn [unzip_loop]. apply bind_ext; [apply unzip_entry_zero | intros; apply IH].
Qed.

(** C9. A permission of [0] is falsy: [_override_permissions] returns
    without any call, on every path, and [unzip] with permission [0] is the
    same computation as [unzip] with no permission. *)
Theorem unzip_permission_zero zip_file_path output_dir w :
  unzip zip_file_path output_dir (Some 0) w
  = unzip zip_file_path output_dir None w
  ∧ ∀ path w', _override_permissions path (Some 0) w' = (Ok tt, w').
Proof.
  split; [| intros; apply override_zero].
  unfold unzip. apply bind_ext; [done|]. intros zip_ref w1.
  apply bind_ext; [apply unzip_loop_zero | done].
Qed.
(** ** Removal of the archive *)

Lemma survives_lexists D m m' q :
  survives_but D m m' → ¬ D q → lexists m q = true → lexists m' q = true.
Proof.
  intros H HD. unfold lexists. destruct (m !! q) as [n|] eqn:Hq; [|done].
  destruct (H q n HD Hq) as (n' & -> & _). done.
Qed.

Lemma unzip_tail_survives D output_dir permission p w r w' :
  when (negb (islink (fs w) p))
    (_override_permissions (fspath output_dir) permission) w = (r, w') →
  survives_but D (fs w) (fs w').
Proof.
  apply (respects_when _ (negb _) _ (respects_override_permissions D _ _)).
Qed.


(** ** Materialising a symbolic link *)



(** ** The two existence tests of [_extract] *)





(** ** Restoring the stored permissions *)


(** ** The override of the output directory *)

(** C6. With the archive opened and the loop over its members done, [p]
    being the path last extracted and [w1] the world the loop left: the
    calls [unzip] makes after the loop contain a [chmod] of [output_dir]
    exactly when the permission is set (truthy) and [p] is not a symbolic
    link in [w1]; no other path is passed to [chmod] there, and the mode is
    the permission.  When the last member of the archive is a symlink
    member, [p] is a link, so the output directory gets no [chmod]. *)
Theorem unzip_root_override zip_file_path output_dir permission w zip_ref md p w1 r w' :
  stat (fs w) (fspath zip_file_path) = Some (File (Archive zip_ref) md) →
  unzip_loop zip_ref zip_ref output_dir permission None w = (Ok (Some p), w1) →
  unzip zip_file_path output_dir permission w = (r, w') →
  ∃ tail,
    calls w' = calls w1 ++ tail
    ∧ ((∃ m b, EvChmod (fspath output_dir) m b ∈ tail)
       ↔ truthy permission = true ∧ islink (fs w1) p = false)
    ∧ (∀ q m b, EvChmod q m b ∈ tail →
         q = fspath output_dir ∧ permission = Some m)
    ∧ (∀ init last_member,
         zip_ref = init ++ [last_member] → _is_symlink last_member = true →
         islink (fs w1) p = true ∧ Forall (λ e, is_chmod e = false) tail).
Proof.
  intros Hstat Hloop Hrun.
  pose proof (ZipFile_open_archive _ _ _ _ Hstat) as Hopen.
  destruct (unzip_inv _ _ _ _ _ _ _ Hopen Hrun)
    as [(e & Hloop' & _)|[[Hloop' _]|(p' & w1' & Hloop' & Htail)]];
    rewrite Hloop in Hloop'; try done.
  inversion Hloop'; subst p' w1'; clear Hloop'.
  assert (Hcalls :
    (islink (fs w1) p = false ∧ truthy permission = true
     ∧ ∃ m b, permission = Some m
         ∧ (calls w' = calls w1 ++ [EvChmod (fspath output_dir) m b]
            ∨ calls w' = calls w1 ++ [EvChmod (fspath output_dir) m b;
                                      EvRemove (fspath zip_file_path)]))
    ∨ ((islink (fs w1) p = true ∨ truthy permission = false)
       ∧ calls w' = calls w1 ++ [EvRemove (fspath zip_file_path)])).
  { destruct (islink (fs w1) p) eqn:Hl; cbn [negb when] in Htail.
    - right. erewrite bind_ok in Htail by reflexivity.
      apply os_remove_inv in Htail as (Hc & _). eauto.
    - apply bind_inv in Htail as [([] & w2 & Hover & Hrm)|(e & Hover & _)];
        apply override_inv in Hover
          as [(Ht & Hr & ->)|(m & -> & Ht & (Hc & _)%os_chmod_inv)];
        try discriminate Hr.
      + right. apply os_remove_inv in Hrm as (Hc & _). eauto.
      + left. apply os_remove_inv in Hrm as (Hc' & _).
        do 2 (split; [done|]). eexists m, _. split; [done|]. right.
        by rewrite Hc', Hc, <- (assoc_L (++)).
      + left. do 2 (split; [done|]). eexists m, _. split; [done|]. by left. }
  destruct Hcalls as [(Hl & Ht & m & b & -> & [Hc|Hc])|[Hwhy Hc]];
    eexists; (split; [exact Hc|]).
  - split; [|split].
    + split; [done|]. intros _. exists m, b. apply list_elem_of_singleton. done.
    + intros q m' b' [= -> -> ->]%list_elem_of_singleton. done.
    + intros init last_member -> Hs.
      rewrite (unzip_loop_last_link _ _ _ _ _ _ _ _ _ Hloop Hs) in Hl. done.
  - split; [|split].
    + split; [done|]. intros _. exists m, b. left.
    + intros q m' b' [[= -> -> ->]|[=]%list_elem_of_singleton]%elem_of_cons. done.
    + intros init last_member -> Hs.
      rewrite (unzip_loop_last_link _ _ _ _ _ _ _ _ _ Hloop Hs) in Hl. done.
  - split; [|split].
    + split.
      * intros (m & b & [=]%list_elem_of_singleton).
      * intros [Ht Hl]. destruct Hwhy; congruence.
    + intros q m b [=]%list_elem_of_singleton.
    + intros init last_member -> Hs. split; [|by repeat constructor].
      by eapply unzip_loop_last_link.
Qed.

Lemma unzip_root_override_witness :
  let w := sample_world (Archive members_file_then_link) in
  let loop := unzip_loop members_file_then_link members_file_then_link
                "/tmp/out" (Some 448) None w in
  let run := unzip "/tmp/a.zip" "/tmp/out" (Some 448) w in
  ∃ tail, calls run.2 = calls loop.2 ++ tail
          ∧ Forall (λ e, is_chmod e = false) tail.
Proof.
  intros w loop run.
  assert (Hstat : stat (fs w) (fspath "/tmp/a.zip")
                  = Some (File (Archive members_file_then_link) 420))
    by (vm_compute; reflexivity).
  assert (Hloop : loop = (Ok (Some ["tmp"; "out"; "l"]%string), loop.2))
    by (vm_compute; reflexivity).
  destruct (unzip_root_override "/tmp/a.zip" "/tmp/out" (Some 448) w
              _ _ _ _ run.1 run.2 Hstat Hloop (surjective_pairing run))
    as (tail & Hc & _ & _ & Hlast).
  exists tail. split; [exact Hc|].
  apply (Hlast [regular_member "d/f" 420 "data"] (symlink_member "l" "d/f"));
    reflexivity.
Defined.
(** ** What the override reaches *)



(** ** Every call to [chmod] accounted for *)

Global Instance grows_refl P : Reflexive (grows P).
Proof. intros w. exists []. by rewrite app_nil_r. Qed.

Global Instance grows_trans P : Transitive (grows P).
Proof.
  intros w1 w2 w3 (t1 & H1 & F1) (t2 & H2 & F2). exists (t1 ++ t2).
  split; [by rewrite H2, H1, (assoc_L (++)) | by apply Forall_app].
Qed.

Lemma grows_weaken (P Q : event → Prop) w w' :
  (∀ e, P e → Q e) → grows P w w' → grows Q w w'.
Proof.
  intros HPQ (tail & Hc & HF). exists tail. split; [done|].
  eapply Forall_impl; eauto.
Qed.

Section respects_grows.
Context (P : event → Prop).

Lemma grows_emit e : P e → respects (grows P) (emit e).
Proof.
  intros He w r w'. inversion 1; subst. exists [e]. split; [done|].
  by apply Forall_singleton.
Qed.

Lemma grows_lift f : respects (grows P) (lift f).
Proof.
  intros w r w' [(m' & _ & _ & ->)|(e & _ & _ & ->)]%lift_inv;
    exists []; by rewrite app_nil_r.
Qed.

Lemma grows_makedirs_rev rname : respects (grows P) (makedirs_rev rname).
Proof.
  intros w r w' (Hc & _)%makedirs_rev_inv. exists []. by rewrite app_nil_r.
Qed.

Lemma grows_os_makedirs name :
  P (EvMakedirs name) → respects (grows P) (os_makedirs name).
Proof.
  intros HP. unfold os_makedirs. respects_step;
    [by apply grows_emit | apply grows_makedirs_rev].
Qed.

Lemma grows_os_remove p : P (EvRemove p) → respects (grows P) (os_remove p).
Proof.
  intros HP. unfold os_remove. respects_step; [by apply grows_emit | apply grows_lift].
Qed.

Lemma grows_os_symlink src p :
  P (EvSymlink src p) → respects (grows P) (os_symlink src p).
Proof.
  intros HP. unfold os_symlink. respects_step; [by apply grows_emit | apply grows_lift].
Qed.

Lemma grows_os_chmod p md :
  (∀ b, P (EvChmod p md b)) → respects (grows P) (os_chmod p md).
Proof.
  intros HP. unfold os_chmod. repeat respects_step;
    [by apply grows_emit | apply grows_lift].
Qed.

Lemma grows_ZipFile_read zip_ref name : respects (grows P) (ZipFile_read zip_ref name).
Proof. unfold ZipFile_read. destruct (ZipFile_getinfo _ _); respects_step. Qed.

Lemma grows_bytes_decode b : respects (grows P) (bytes_decode b).
Proof. unfold bytes_decode. destruct (decode_utf8 _); respects_step. Qed.

Lemma grows_extract file_info output_dir zip_ref :
  (∀ e, is_chmod e = false → P e) →
  respects (grows P) (_extract file_info output_dir zip_ref).
Proof.
  intros HP. unfold _extract. destruct (_is_symlink file_info); cbn [negb].
  - repeat (first [apply grows_ZipFile_read | apply grows_bytes_decode
                  | respects_step]; cbv zeta).
    all: first [ by apply grows_os_makedirs, HP | by apply grows_os_remove, HP
               | by apply grows_os_symlink, HP ].
  - unfold ZipFile_extract. repeat respects_step.
    + by apply grows_emit, HP.
    + apply grows_makedirs_rev.
    + destruct (ZipInfo_is_dir file_info); repeat respects_step;
        apply grows_lift.
Qed.
End respects_grows.

Lemma extract_exists_not_link file_info output_dir zip_ref w p wa :
  _extract file_info output_dir zip_ref w = (Ok p, wa) →
  islink (fs wa) p = false →
  ∃ n, fs wa !! p = Some n ∧ is_link n = false.
Proof.
  intros (_ & _ & [n Hn] & _)%extract_Ok Hl. exists n. split; [done|].
  by rewrite <- (islink_lookup _ _ _ Hn).
Qed.

Lemma override_not_link_calls zip_ref output_dir permission p w n r w' :
  fs w !! p = Some n → is_link n = false →
  (∀ md, permission = Some md → md ≠ 0 →
         chmod_allowed zip_ref output_dir permission (EvChmod p md false)) →
  _override_permissions p permission w = (r, w') →
  grows (chmod_allowed zip_ref output_dir permission) w w'.
Proof.
  intros Hn Hnl Hallow.
  intros [(_ & _ & ->)|(m & -> & Ht & Hch)]%override_inv; [done|].
  rewrite (os_chmod_ok _ _ _ n) in Hch by done.
  apply run_world in Hch. subst w'.
  exists [EvChmod p m false]. split; [done|]. apply Forall_singleton.
  apply Hallow; [done|]. cbn in Ht. by destruct (Z.eqb_spec m 0).
Qed.

(** One turn of the loop, whatever its outcome. *)
Lemma unzip_entry_calls zip_ref output_dir permission file_info w r w1 :
  unzip_entry zip_ref output_dir permission file_info w = (r, w1) →
  grows (chmod_allowed [file_info] output_dir permission) w w1.
Proof.
  intros H.
  destruct (_extract file_info output_dir zip_ref w) as [[p|e] wa] eqn:Hex.
  2:{ erewrite unzip_entry_raises in H by done. apply run_world in H. subst w1.
      eapply grows_extract, Hex. by intros []. }
  assert (Hg0 : grows (chmod_allowed [file_info] output_dir permission) w wa).
  { eapply grows_extract, Hex. by intros []. }
  etrans; [exact Hg0|]. clear Hg0.
  destruct (islink (fs wa) p) eqn:Hl.
  { erewrite unzip_entry_link in H by done. apply run_world in H. by subst w1. }
  erewrite unzip_entry_not_link in H by done.
  pose proof (extract_Ok _ _ _ _ _ _ Hex) as (Hp & _).
  destruct (extract_exists_not_link _ _ _ _ _ _ Hex Hl) as (n & Hn & Hnl).
  clear Hex.
  assert (Hmember : file_info ∈ [file_info]) by (by apply list_elem_of_singleton).
  assert (Hset : ∃ wb n1,
    _set_permissions file_info p wa = (Ok tt, wb)
    ∧ fs wb !! p = Some n1 ∧ is_link n1 = false
    ∧ grows (chmod_allowed [file_info] output_dir permission) wa wb).
  { destruct (decide (stored_mode file_info = 0)) as [Hz|Hz].
    - rewrite set_permissions_missing by done. eexists _, n.
      split; [done|]. do 2 (split; [done|]).
      exists [EvDebug (filename file_info)]. split; [done|].
      by apply Forall_singleton.
    - rewrite (set_permissions_stored _ _ _ n) by done. eexists _, _.
      split; [done|]. cbn [fs]. split; [apply lookup_insert_eq|].
      split; [by destruct n|].
      eexists. split; [done|]. apply Forall_singleton.
      left. exists file_info. split; [done|]. split; [done|]. split; [done|].
      by left. }
  destruct Hset as (wb & n1 & Hset & Hn1 & Hnl1 & Hg1).
  etrans; [exact Hg1|]. clear Hg1.
  erewrite bind_ok in H by exact Hset.
  apply bind_inv in H as [([] & wc & Hover & H)|(e & Hover & _)].
  - apply ret_inv in H as [_ ->].
    eapply override_not_link_calls; [exact Hn1 | exact Hnl1 | | exact Hover].
    intros md Hmd Hz. left. exists file_info. split; [done|].
    split; [done|]. split; [done|]. by right.
  - eapply override_not_link_calls; [exact Hn1 | exact Hnl1 | | exact Hover].
    intros md Hmd Hz. left. exists file_info. split; [done|].
    split; [done|]. split; [done|]. by right.
Qed.

Lemma chmod_allowed_mono zip_ref zip_ref' output_dir permission e :
  zip_ref ⊆ zip_ref' →
  chmod_allowed zip_ref output_dir permission e →
  chmod_allowed zip_ref' output_dir permission e.
Proof.
  intros Hsub. destruct e; try done.
  intros [(fi & Hin & H)|H]; [left | by right]. exists fi. split; [by apply Hsub | done].
Qed.

Lemma unzip_loop_calls zip_ref infolist output_dir permission extracted_path w r w1 :
  unzip_loop zip_ref infolist output_dir permission extracted_path w = (r, w1) →
  grows (chmod_allowed infolist output_dir permission) w w1.
Proof.
  revert extracted_path w.
  induction infolist as [|file_info rest IH]; intros extracted_path w H.
  - apply ret_inv in H as [_ ->]. done.
  - cbn [unzip_loop] in H.
    apply bind_inv in H as [(p & w0 & Hent & H)|(e & Hent & _)].
    + etrans.
      * eapply grows_weaken; [|eapply unzip_entry_calls, Hent].
        intros ev. apply chmod_allowed_mono.
        intros x ->%list_elem_of_singleton. left.
      * eapply grows_weaken; [|eapply IH, H].
        intros ev. apply chmod_allowed_mono. intros x Hx. by right.
    + eapply grows_weaken; [|eapply unzip_entry_calls, Hent].
      intros ev. apply chmod_allowed_mono.
      intros x ->%list_elem_of_singleton. left.
Qed.
(** ** Further properties of the extractor *)

(** Every [chmod] that [unzip] makes, whatever the outcome, is on a member's
    own path, off any link, with that member's stored mode (not zero) or
    with the override (not zero), or is the override of the output
    directory. *)
Theorem unzip_chmod_accounted zip_file_path output_dir permission w zip_ref md r w' :
  stat (fs w) (fspath zip_file_path) = Some (File (Archive zip_ref) md) →
  unzip zip_file_path output_dir permission w = (r, w') →
  ∃ tail, calls w' = calls w ++ tail
          ∧ Forall (chmod_allowed zip_ref output_dir permission) tail.
Proof.
  intros Hstat Hrun.
  pose proof (ZipFile_open_archive _ _ _ _ Hstat) as Hopen.
  change (grows (chmod_allowed zip_ref output_dir permission) w w').
  destruct (unzip_inv _ _ _ _ _ _ _ Hopen Hrun)
    as [(e & Hloop & _)|[[Hloop _]|(p & w1 & Hloop & Htail)]];
    try (by eapply unzip_loop_calls, Hloop).
  etrans; [by eapply unzip_loop_calls, Hloop|].
  assert (Hroot : ∀ r2 w2,
    when (negb (islink (fs w1) p))
      (_override_permissions (fspath output_dir) permission) w1 = (r2, w2) →
    grows (chmod_allowed zip_ref output_dir permission) w1 w2).
  { intros r2 w2. destruct (islink (fs w1) p); cbn [negb when].
    - intros [_ ->]%ret_inv. done.
    - intros [(_ & _ & ->)|(m & -> & Ht & (Hc & _)%os_chmod_inv)]%override_inv;
        [done|].
      eexists. split; [exact Hc|]. apply Forall_singleton. right.
      split; [done|]. split; [done|]. cbn in Ht. by destruct (Z.eqb_spec m 0). }
  apply bind_inv in Htail as [([] & w2 & Hover & Hrm)|(e & Hover & _)];
    [|by eapply Hroot].
  etrans; [by eapply Hroot|].
  apply os_remove_inv in Hrm as (Hc & _).
  eexists. split; [exact Hc|]. by apply Forall_singleton.
Qed.

Lemma unzip_chmod_accounted_witness :
  let run := unzip "/tmp/a.zip" "/tmp/out" (Some 448)
               (sample_world (Archive members_file_then_link)) in
  ∃ tail, calls run.2 = [] ++ tail
          ∧ Forall (chmod_allowed members_file_then_link "/tmp/out" (Some 448)) tail.
Proof.
  intros run.
  apply (unzip_chmod_accounted "/tmp/a.zip" "/tmp/out" (Some 448)
           (sample_world (Archive members_file_then_link))
           members_file_then_link 420 run.1 run.2).
  - vm_compute. reflexivity.
  - apply surjective_pairing.
Defined.

(** Whatever the outcome, [unzip] makes no object disappear except the
    archive itself and what a symlink member finds at its own link path. *)
Theorem unzip_removes_nothing_else zip_file_path output_dir permission w zip_ref md r w' q :
  stat (fs w) (fspath zip_file_path) = Some (File (Archive zip_ref) md) →
  unzip zip_file_path output_dir permission w = (r, w') →
  lexists (fs w) q = true →
  q ≠ fspath zip_file_path →
  Forall (λ file_info, _is_symlink file_info = true →
                       q ≠ link_name_of output_dir file_info) zip_ref →
  lexists (fs w') q = true.
Proof.
  intros Hstat Hrun Hq Hzip Hsites.
  pose proof (ZipFile_open_archive _ _ _ _ Hstat) as Hopen.
  assert (Hloop_keeps : ∀ r1 w1,
    unzip_loop zip_ref zip_ref output_dir permission None w = (r1, w1) →
    lexists (fs w1) q = true).
  { intros r1 w1 Hloop.
    eapply survives_lexists; [eapply respects_unzip_loop, Hloop | | done].
    intros (file_info & Hin & Hs & Hsite).
    rewrite Forall_forall in Hsites. by eapply Hsites. }
  destruct (unzip_inv _ _ _ _ _ _ _ Hopen Hrun)
    as [(e & Hloop & _)|[[Hloop _]|(p & w1 & Hloop & Htail)]]; [by eauto..|].
  apply bind_inv in Htail as [([] & w2 & Hover & Hrm)|(e & Hover & _)].
  - assert (Hq2 : lexists (fs w2) q = true).
    { eapply survives_lexists;
        [eapply (unzip_tail_survives (λ _, False)), Hover | tauto | eauto]. }
    apply os_remove_inv in Hrm as (_ & _ & [(_ & Hfs & _)|(e & _ & Hfs)]).
    + unfold lexists in *. by rewrite Hfs, lookup_delete_ne.
    + by rewrite Hfs.
  - eapply survives_lexists;
      [eapply (unzip_tail_survives (λ _, False)), Hover | tauto | eauto].
Qed.

Lemma unzip_removes_nothing_else_witness :
  let run := unzip "/tmp/a.zip" "/tmp/out" None
               (sample_world (Archive members_link_over_dir)) in
  lexists (fs run.2) ["tmp"; "out"]%string = true.
Proof.
  intros run.
  apply (unzip_removes_nothing_else "/tmp/a.zip" "/tmp/out" None
           (sample_world (Archive members_link_over_dir))
           members_link_over_dir 420 run.1 run.2).
  - vm_compute. reflexivity.
  - apply surjective_pairing.
  - vm_compute. reflexivity.
  - vm_compute. discriminate.
  - repeat constructor; intros _; vm_compute; discriminate.
Defined.




Lemma extract_symlink_over_link file_info output_dir zip_ref w zi src old md :
  _is_symlink file_info = true →
  ZipFile_getinfo zip_ref (filename file_info) = Some zi →
  decode_utf8 (payload zi) = Some src →
  fs w !! link_name_of output_dir file_info = Some (Symlink old) →
  fs w !! os_path_dirname (link_name_of output_dir file_info) = Some (Dir md) →
  _extract file_info output_dir zip_ref w
  = (Ok (link_name_of output_dir file_info),
     mkWorld (<[link_name_of output_dir file_info := Symlink src]> (fs w)) (umask w)
       (calls w ++ [EvRemove (link_name_of output_dir file_info);
                    EvSymlink src (link_name_of output_dir file_info)])).
Proof.
  intros Hs Hg Hd Hold Hlead.
  erewrite extract_symlink_unfold by done.
  rewrite (exists_dir _ _ _ Hlead). cbn [negb when].
  erewrite bind_ok by reflexivity. erewrite bind_ok by reflexivity.
  unfold lexists. rewrite Hold. cbn [when].
  erewrite bind_ok by (by eapply os_remove_ok).
  erewrite bind_ok.
  2:{ apply os_symlink_ok with (md := md); cbn.
      - apply lookup_delete_eq.
      - rewrite lookup_delete_ne; [done|]. intros E. congruence. }
  cbn. by rewrite insert_delete_eq, <- (assoc_L (++)).
Qed.

(** Extracting a symlink member a second time changes nothing in the file
    system: the link made the first time is removed and made again. *)
Theorem extract_symlink_again file_info output_dir zip_ref w p w1 :
  _is_symlink file_info = true →
  _extract file_info output_dir zip_ref w = (Ok p, w1) →
  ∃ src,
    fs w1 !! p = Some (Symlink src)
    ∧ _extract file_info output_dir zip_ref w1
      = (Ok p, mkWorld (fs w1) (umask w1)
                 (calls w1 ++ [EvRemove p; EvSymlink src p])).
Proof.
  intros Hs Hrun.
  destruct (extract_symlink_readable _ _ _ _ _ _ Hs Hrun) as (zi & src & Hg & Hd).
  pose proof (extract_symlink_Ok _ _ _ _ _ _ _ _ Hs Hg Hd Hrun) as Hok.
  cbv zeta in Hok. destruct Hok as (-> & _ & _ & Hl & [md Hlead] & _).
  exists src. split; [done|].
  erewrite extract_symlink_over_link by done.
  by rewrite insert_id.
Qed.

Lemma extract_symlink_again_witness :
  ∃ src,
    fs (_extract (symlink_member "d" "elsewhere") "/tmp/out"
          [symlink_member "d" "elsewhere"] dangling_world).2
      !! (["tmp"; "out"; "d"]%string) = Some (Symlink src)
    ∧ _extract (symlink_member "d" "elsewhere") "/tmp/out"
        [symlink_member "d" "elsewhere"]
        (_extract (symlink_member "d" "elsewhere") "/tmp/out"
           [symlink_member "d" "elsewhere"] dangling_world).2
      = (Ok ["tmp"; "out"; "d"]%string,
         mkWorld
           (fs (_extract (symlink_member "d" "elsewhere") "/tmp/out"
                  [symlink_member "d" "elsewhere"] dangling_world).2)
           (umask (_extract (symlink_member "d" "elsewhere") "/tmp/out"
                     [symlink_member "d" "elsewhere"] dangling_world).2)
           (calls (_extract (symlink_member "d" "elsewhere") "/tmp/out"
                     [symlink_member "d" "elsewhere"] dangling_world).2
            ++ [EvRemove ["tmp"; "out"; "d"]%string;
                EvSymlink src ["tmp"; "out"; "d"]%string])).
Proof.
  apply (extract_symlink_again (symlink_member "d" "elsewhere") "/tmp/out"
           [symlink_member "d" "elsewhere"] dangling_world).
  - vm_compute. reflexivity.
  - vm_compute. reflexivity.
Defined.

Lemma unzip_entry_path zip_ref output_dir permission file_info w p w1 :
  unzip_entry zip_ref output_dir permission file_info w = (Ok p, w1) →
  p = entry_path output_dir file_info.
Proof.
  intros (wa & Hex & _)%unzip_entry_Ok_inv. by apply extract_Ok in Hex as (? & _).
Qed.

Lemma unzip_loop_result zip_ref infolist output_dir permission extracted_path w r w1 :
  unzip_loop zip_ref infolist output_dir permission extracted_path w = (Ok r, w1) →
  r = match last infolist with
      | Some file_info => Some (entry_path output_dir file_info)
      | None => extracted_path
      end.
Proof.
  revert extracted_path w.
  induction infolist as [|file_info rest IH]; intros extracted_path w H.
  - cbn [unzip_loop] in H. by apply ret_inv in H as [[= ->] _].
  - cbn [unzip_loop] in H. apply bind_ok_inv in H as (p & w0 & Hent & H).
    apply unzip_entry_path in Hent as ->. apply IH in H as ->.
    destruct rest as [|file_info' rest']; [done|].
    change (last (file_info :: file_info' :: rest')) with (last (file_info' :: rest')).
    destruct (proj2 (last_is_Some (file_info' :: rest'))) as [x ->]; done.
Qed.

(** When the loop returns, its variable holds the path of the last member
    it went through, or what it held before when there was none; for the
    whole archive, it is assigned exactly when the archive has a member. *)
Theorem unzip_loop_variable zip_ref infolist output_dir permission extracted_path w r w1 :
  unzip_loop zip_ref infolist output_dir permission extracted_path w = (Ok r, w1) →
  r = match last infolist with
      | Some file_info => Some (entry_path output_dir file_info)
      | None => extracted_path
      end
  ∧ (extracted_path = None → (r = None ↔ infolist = [])).
Proof.
  intros H. pose proof (unzip_loop_result _ _ _ _ _ _ _ _ H) as Hr.
  split; [done|]. intros ->. rewrite Hr. split.
  - destruct (last infolist) eqn:Hl; [done|]. intros _. by apply last_None.
  - by intros ->.
Qed.

Lemma unzip_loop_variable_witness :
  (unzip_loop members_file_then_link members_file_then_link "/tmp/out" None None
     (sample_world (Archive members_file_then_link))).1
  = Ok (Some (entry_path "/tmp/out" (symlink_member "l" "d/f"))).
Proof.
  set (run := unzip_loop members_file_then_link members_file_then_link
                "/tmp/out" None None (sample_world (Archive members_file_then_link))).
  assert (Hrun : run = (Ok (Some ["tmp"; "out"; "l"]%string), run.2))
    by (vm_compute; reflexivity).
  destruct (unzip_loop_variable _ _ _ _ _ _ _ _ Hrun) as [Hr _].
  rewrite Hrun. cbn [fst]. by rewrite Hr.
Defined.

(** A member that [_is_symlink] takes for a link carries permission
    metadata, with the type code of a link in its top four bits; so a member
    without metadata, for which [_set_permissions] only logs, is never taken
    for a link. *)
Theorem is_symlink_has_metadata file_info :
  (_is_symlink file_info = true →
     stored_mode file_info ≠ 0 ∧ Z.shiftr (stored_mode file_info) 12 = 10)
  ∧ (stored_mode file_info = 0 → _is_symlink file_info = false).
Proof.
  assert (H : Z.shiftr (stored_mode file_info) 12
              = Z.shiftr (external_attr file_info) 28).
  { unfold stored_mode. by rewrite Z.shiftr_shiftr by lia. }
  unfold _is_symlink. split.
  - intros Hs%Z.eqb_eq. rewrite H. split; [|done].
    intros Hz. rewrite Hz in H. rewrite <- H in Hs. done.
  - intros Hz. rewrite Hz in H. rewrite <- H. done.
Qed.

(** A symlink member whose name starts with a separator is materialised at
    that name, normalised: the output directory plays no part. *)
Theorem extract_symlink_absolute_name file_info zip_ref w :
  _is_symlink file_info = true →
  starts_with_sep (filename file_info) = true →
  (∀ output_dir output_dir',
     _extract file_info output_dir zip_ref w
     = _extract file_info output_dir' zip_ref w)
  ∧ ∀ output_dir p w',
      _extract file_info output_dir zip_ref w = (Ok p, w') →
      p = os_path_normpath (filename file_info)
      ∧ ∃ src, fs w' !! os_path_normpath (filename file_info) = Some (Symlink src).
Proof.
  intros Hs Habs.
  assert (Hjoin : ∀ output_dir,
    os_path_join output_dir (filename file_info) = filename file_info).
  { intros output_dir. unfold os_path_join. by rewrite Habs. }
  split.
  - intros output_dir output_dir'. unfold _extract. rewrite Hs. cbn [negb].
    by rewrite !Hjoin.
  - intros output_dir p w' Hrun.
    destruct (extract_symlink_readable _ _ _ _ _ _ Hs Hrun) as (zi & src & Hg & Hd).
    pose proof (extract_symlink_Ok _ _ _ _ _ _ _ _ Hs Hg Hd Hrun) as Hok.
    cbv zeta in Hok. unfold link_name_of in Hok. rewrite Hjoin in Hok.
    destruct Hok as (-> & _ & _ & Hl & _). eauto.
Qed.

Lemma extract_symlink_absolute_name_witness :
  (_extract (symlink_member "/tmp/x" "t") "/tmp/out" [symlink_member "/tmp/x" "t"]
     (sample_world (Bytes "PK"))).1
  = Ok (os_path_normpath "/tmp/x").
Proof.
  set (run := _extract (symlink_member "/tmp/x" "t") "/tmp/out"
                [symlink_member "/tmp/x" "t"] (sample_world (Bytes "PK"))).
  assert (Hrun : run = (Ok ["tmp"; "x"]%string, run.2)) by (vm_compute; reflexivity).
  destruct (extract_symlink_absolute_name (symlink_member "/tmp/x" "t")
              [symlink_member "/tmp/x" "t"] (sample_world (Bytes "PK")))
    as [_ H]; [vm_compute; reflexivity | reflexivity |].
  destruct (H _ _ _ Hrun) as [Hp _]. rewrite Hrun. cbn [fst]. by rewrite Hp.
Defined.

Lemma is_symlink_has_metadata_witness :
  stored_mode (symlink_member "l" "t") ≠ 0
  ∧ Z.shiftr (stored_mode (symlink_member "l" "t")) 12 = 10.
Proof.
  apply (proj1 (is_symlink_has_metadata (symlink_member "l" "t"))).
  vm_compute. reflexivity.
Defined.

(** *** No rollback *)

Lemma unzip_entry_Ok_lexists zip_ref output_dir permission file_info w p w1 :
  unzip_entry zip_ref output_dir permission file_info w = (Ok p, w1) →
  lexists (fs w1) p = true
  ∧ ∀ q, lexists (fs w) q = true → lexists (fs w1) q = true.
Proof.
  intros (wa & Hex & Hcase)%unzip_entry_Ok_inv.
  pose proof (respects_extract _ _ _ _ _ _ Hex) as Hkeep.
  pose proof (extract_Ok _ _ _ _ _ _ Hex) as (Hp & _ & [n Hn] & _).
  assert (Ha : lexists (fs wa) p = true ∧
               ∀ q, lexists (fs w) q = true → lexists (fs wa) q = true).
  { split; [unfold lexists; by rewrite Hn|]. intros q Hq.
    destruct (decide (q = p)) as [->|Hne]; [unfold lexists; by rewrite Hn|].
    eapply survives_lexists; [apply keeps_survives, Hkeep | | done].
    intros [Hs Hq']. apply Hne. rewrite Hq', Hp. unfold entry_path. by rewrite Hs. }
  destruct Hcase as [[_ ->]|[_ Hperm]]; [done|].
  assert (Hb : ∀ q, lexists (fs wa) q = true → lexists (fs w1) q = true).
  { assert (Hresp : respects (wtracks (λ _ _, True) (λ _, False))
                       (_set_permissions file_info p;;
                        _override_permissions p permission)).
    { apply respects_bind; try apply _;
        [apply respects_set_permissions
        | intros []; apply respects_override_permissions]. }
    intros q. apply (survives_lexists (λ _, False)); [|tauto].
    exact (Hresp _ _ _ Hperm). }
  destruct Ha as [Ha1 Ha2]. split; [by apply Hb | by eauto].
Qed.

Lemma unzip_loop_Ok_lexists zip_ref infolist output_dir permission extracted_path w r w1 :
  unzip_loop zip_ref infolist output_dir permission extracted_path w = (Ok r, w1) →
  (∀ q, lexists (fs w) q = true → lexists (fs w1) q = true)
  ∧ ∀ file_info, file_info ∈ infolist →
      lexists (fs w1) (entry_path output_dir file_info) = true.
Proof.
  revert extracted_path w.
  induction infolist as [|file_info rest IH]; intros extracted_path w H.
  - cbn [unzip_loop] in H. apply ret_inv in H as [_ ->].
    split; [done | by intros ? ?%elem_of_nil].
  - cbn [unzip_loop] in H. apply bind_ok_inv in H as (p & w0 & Hent & H).
    pose proof (unzip_entry_path _ _ _ _ _ _ _ Hent) as ->.
    apply unzip_entry_Ok_lexists in Hent as [Hp Hpres].
    apply IH in H as [Hpres' Hall]. split; [by eauto|].
    intros fi [->|Hin]%elem_of_cons; [by apply Hpres' | by apply Hall].
Qed.

(** When a member fails, [unzip] raises that member's exception in the
    world the failure left: the members after it are not looked at, the
    archive is not removed, and what the members before it put on disk stays
    (a path the failing link member had already cleared apart). *)
Theorem unzip_no_rollback
    zip_file_path output_dir permission w md before file_info rest last w1 e w2 :
  stat (fs w) (fspath zip_file_path)
  = Some (File (Archive (before ++ file_info :: rest)) md) →
  unzip_loop (before ++ file_info :: rest) before output_dir permission None w
  = (Ok last, w1) →
  unzip_entry (before ++ file_info :: rest) output_dir permission file_info w1
  = (Raise e, w2) →
  unzip zip_file_path output_dir permission w = (Raise e, w2)
  ∧ ∀ earlier, earlier ∈ before →
      ¬ link_site output_dir file_info (entry_path output_dir earlier) →
      lexists (fs w2) (entry_path output_dir earlier) = true.
Proof.
  intros Hstat Hdone Hfail. split.
  - erewrite unzip_opened by (eapply ZipFile_open_archive; eauto).
    apply bind_raise. rewrite unzip_loop_app.
    erewrite bind_ok by exact Hdone. cbn [unzip_loop]. by apply bind_raise.
  - intros earlier Hin Hsite.
    apply unzip_loop_Ok_lexists in Hdone as [_ Hall].
    eapply survives_lexists; [eapply respects_unzip_entry, Hfail | done | by apply Hall].
Qed.

Lemma unzip_no_rollback_witness :
  let w := sample_world (Archive members_link_over_dir) in
  let run := unzip "/tmp/a.zip" "/tmp/out" None w in
  run.1 = Raise IsADirectoryError
  ∧ lexists (fs run.2) (entry_path "/tmp/out" (regular_member "d/f" 420 "data")) = true.
Proof.
  intros w run.
  set (before := unzip_loop members_link_over_dir [regular_member "d/f" 420 "data"]
                   "/tmp/out" None None w).
  set (failing := unzip_entry members_link_over_dir "/tmp/out" None
                    (symlink_member "d" "elsewhere") before.2).
  assert (Hstat : stat (fs w) (fspath "/tmp/a.zip")
                  = Some (File (Archive ([regular_member "d/f" 420 "data"]
                                         ++ symlink_member "d" "elsewhere" :: [])) 420))
    by (vm_compute; reflexivity).
  assert (Hdone : before = (Ok (Some ["tmp"; "out"; "d"; "f"]%string), before.2))
    by (vm_compute; reflexivity).
  assert (Hfail : failing = (Raise IsADirectoryError, failing.2))
    by (vm_compute; reflexivity).
  destruct (unzip_no_rollback "/tmp/a.zip" "/tmp/out" None w 420
              [regular_member "d/f" 420 "data"] (symlink_member "d" "elsewhere") []
              _ _ _ _ Hstat Hdone Hfail) as [Hrun Hkept].
  split.
  - change (run.1) with (unzip "/tmp/a.zip" "/tmp/out" None w).1. by rewrite Hrun.
  - change (run.2) with (unzip "/tmp/a.zip" "/tmp/out" None w).2. rewrite Hrun.
    apply Hkept; [left|]. intros [_ Hq]. vm_compute in Hq. discriminate.
Defined.
(** ** What [unzip] can raise *)

Section raises.
Context (E : exn → Prop).








End raises.






















(** *** Members with distinct names *)

Lemma find_unique_name (l : list ZipInfo) file_info :
  NoDup (filename <$> l) → file_info ∈ l →
  find (λ zi, String.eqb (filename zi) (filename file_info)) l = Some file_info.
Proof.
  induction l as [|zi l IH]; [by intros _ ?%elem_of_nil|].
  rewrite fmap_cons. intros [Hnew Hnd]%NoDup_cons [->|Hin]%elem_of_cons; cbn.
  - by rewrite String.eqb_refl.
  - destruct (String.eqb_spec (filename zi) (filename file_info)) as [E|_];
      [|by apply IH].
    exfalso. apply Hnew. rewrite E. by apply list_elem_of_fmap_2.
Qed.

Lemma fmap_rev_list {A B} (f : A → B) (l : list A) : f <$> rev l = rev (f <$> l).
Proof.
  induction l as [|x l IH]; [done|]. cbn [rev]. by rewrite fmap_app, IH.
Qed.

(** When the members of the archive have distinct names, the link made for
    a symlink member points to the member's own data. *)
Theorem extract_symlink_own_data file_info output_dir zip_ref w p w' :
  NoDup (filename <$> zip_ref) → file_info ∈ zip_ref →
  _is_symlink file_info = true →
  _extract file_info output_dir zip_ref w = (Ok p, w') →
  ZipFile_read zip_ref (filename file_info) w = (Ok (payload file_info), w)
  ∧ ∃ src, decode_utf8 (payload file_info) = Some src
           ∧ fs w' !! p = Some (Symlink src).
Proof.
  intros Hnd Hin Hs Hrun.
  assert (Hg : ZipFile_getinfo zip_ref (filename file_info) = Some file_info).
  { unfold ZipFile_getinfo. apply find_unique_name.
    - rewrite fmap_rev_list. apply NoDup_ListNoDup, List.NoDup_rev.
      by apply NoDup_ListNoDup.
    - apply list_elem_of_In, in_rev. rewrite rev_involutive.
      by apply list_elem_of_In. }
  split; [unfold ZipFile_read; by rewrite Hg|].
  destruct (extract_symlink_readable _ _ _ _ _ _ Hs Hrun) as (zi & src & Hg' & Hd).
  rewrite Hg in Hg'. injection Hg' as <-.
  pose proof (extract_symlink_Ok _ _ _ _ _ _ _ _ Hs Hg Hd Hrun) as Hok.
  cbv zeta in Hok. destruct Hok as (-> & _ & _ & Hl & _). eauto.
Qed.

Lemma extract_symlink_own_data_witness :
  ∃ src, decode_utf8 (payload (symlink_member "l" "d/f")) = Some src
         ∧ fs (_extract (symlink_member "l" "d/f") "/tmp/out" members_file_then_link
                 (sample_world (Archive members_file_then_link))).2
             !! (["tmp"; "out"; "l"]%string) = Some (Symlink src).
Proof.
  set (run := _extract (symlink_member "l" "d/f") "/tmp/out" members_file_then_link
                (sample_world (Archive members_file_then_link))).
  assert (Hrun : run = (Ok ["tmp"; "out"; "l"]%string, run.2))
    by (vm_compute; reflexivity).
  assert (Hnd : NoDup (filename <$> members_file_then_link)).
  { apply (bool_decide_unpack _). vm_compute. exact I. }
  assert (Hin : symlink_member "l" "d/f" ∈ members_file_then_link)
    by (right; left).
  assert (Hs : _is_symlink (symlink_member "l" "d/f") = true)
    by (vm_compute; reflexivity).
  destruct (extract_symlink_own_data _ _ _ _ _ _ Hnd Hin Hs Hrun) as [_ H].
  exact H.
Defined.
(** ** Where members can land *)

Lemma append_nil_l (t : string) : EmptyString +:+ t = t.
Proof. reflexivity. Qed.

Lemma append_String (c : ascii) (s t : string) : String c s +:+ t = String c (s +:+ t).
Proof. reflexivity. Qed.


Lemma string_app_assoc (a b c : string) : (a +:+ b) +:+ c = a +:+ (b +:+ c).
Proof.
  induction a as [|x a IH]; [done|]. by rewrite !append_String, IH.
Qed.


Lemma split_on_sep_app sep s1 s2 acc :
  split_on sep (s1 +:+ String sep s2) acc
  = split_on sep s1 acc ++ split_on sep s2 EmptyString.
Proof.
  revert acc. induction s1 as [|c r IH]; intros acc.
  - rewrite append_nil_l. cbn [split_on]. by rewrite Ascii.eqb_refl.
  - rewrite append_String. cbn [split_on].
    destruct (Ascii.eqb c sep); [by rewrite IH | apply IH].
Qed.



Lemma ends_with_sep_inv a :
  ends_with_sep a = true → ∃ a', a = a' +:+ String "/"%char EmptyString.
Proof.
  induction a as [|c r IH]; [done|]. cbn [ends_with_sep].
  destruct r as [|c' r'].
  - intros ->%Ascii.eqb_eq. by exists EmptyString.
  - intros [a' ->]%IH. by exists (String c a').
Qed.

Lemma foldl_norm_step_empty st : foldl norm_step st [EmptyString] = st.
Proof. done. Qed.


(** [normpath (join a b)] for a relative [b]: the components of [b] are
    worked off after those of [a]. *)
Lemma normpath_join_relative a b :
  starts_with_sep b = false →
  os_path_normpath (os_path_join a b)
  = foldl norm_step (os_path_normpath a) (str_split b).
Proof.
  intros Hb. unfold os_path_join. rewrite Hb.
  unfold os_path_normpath, str_split.
  destruct (String.eqb_spec a EmptyString) as [->|Ha]; cbn [orb].
  - done.
  - destruct (ends_with_sep a) eqn:Hend.
    + apply ends_with_sep_inv in Hend as [a' ->].
      rewrite string_app_assoc, append_String, append_nil_l.
      rewrite !split_on_sep_app, !foldl_app. done.
    + change (a +:+ "/" +:+ b)%string with (a +:+ String "/"%char b).
      by rewrite split_on_sep_app, foldl_app.
Qed.







(** The name of a symlink member is not cleaned: a relative name is worked
    off component by component from the output directory, so each [".."]
    climbs one directory up, out of the output directory if need be. *)
Theorem extract_symlink_relative_name file_info output_dir zip_ref w p w' :
  _is_symlink file_info = true →
  starts_with_sep (filename file_info) = false →
  _extract file_info output_dir zip_ref w = (Ok p, w') →
  p = foldl norm_step (fspath output_dir) (str_split (filename file_info))
  ∧ ∀ name, filename file_info = ("../" +:+ name)%string →
      p = foldl norm_step (removelast (fspath output_dir)) (str_split name).
Proof.
  intros Hs Hrel Hrun.
  apply extract_Ok in Hrun as (-> & _). unfold entry_path. rewrite Hs.
  unfold link_name_of. rewrite normpath_join_relative by done.
  split; [done|]. intros name ->. unfold str_split.
  change ("../" +:+ name)%string with (".." +:+ String "/"%char name)%string.
  by rewrite split_on_sep_app, foldl_app.
Qed.

Lemma extract_symlink_relative_name_witness :
  ∃ p w', _extract (symlink_member "../x" "t") "/tmp/out" [symlink_member "../x" "t"]
            (sample_world (Bytes "PK"))
          = (Ok p, w')
          ∧ p = foldl norm_step (removelast (fspath "/tmp/out")) (str_split "x").
Proof.
  set (run := _extract (symlink_member "../x" "t") "/tmp/out"
                [symlink_member "../x" "t"] (sample_world (Bytes "PK"))).
  assert (Hrun : run = (Ok ["tmp"; "x"]%string, run.2)) by (vm_compute; reflexivity).
  assert (Hs : _is_symlink (symlink_member "../x" "t") = true)
    by (vm_compute; reflexivity).
  destruct (extract_symlink_relative_name (symlink_member "../x" "t") "/tmp/out"
              [symlink_member "../x" "t"] (sample_world (Bytes "PK"))
              _ _ Hs eq_refl Hrun) as [_ H].
  eexists _, _. split; [exact Hrun | by apply H].
Defined.
